(** * Raymote: the device session manager of [index.mjs]

    A shallow embedding of the serial-port session code of Raymote
    (port listing, receiver and transmitter connections, the IR command
    writer, the server-sent-event subscribers and the start-up
    reconnect), with the properties of its specification stated over it.

    JavaScript strings are modelled by [string] (the UTF-8 bytes of the
    text), object references by indices into a heap held in the state,
    and every callback of the source by a function on that state, so an
    execution of the program is a sequence of such functions applied in
    the order in which the event loop runs the callbacks. *)

From Stdlib Require Import ZArith NArith List String Ascii Bool Lia.
From Stdlib Require Import DecimalString DecimalPos DecimalFacts.
From stdpp Require Import base list strings.

(** ** JavaScript string primitives used by the source *)

Module JS.

(** [s.includes(needle)]: [needle] occurs in [s] as a contiguous run. *)
Fixpoint includes (s needle : string) : bool :=
  if String.prefix needle s then true
  else match s with
       | EmptyString => false
       | String _ rest => includes rest needle
       end.

(** [needle] occurs in [s]. *)
Definition contains (s needle : string) : Prop :=
  exists before after, s = before +:+ needle +:+ after.

(** Truthiness of a string value: only the empty string is falsy. *)
Definition truthy_string (s : string) : bool :=
  match s with EmptyString => false | String _ _ => true end.

(** Truthiness of a value that is a string, [null] or [undefined]. *)
Definition truthy (v : option string) : bool :=
  match v with Some s => truthy_string s | None => false end.

(** [v || dflt] for such a value. *)
Definition or_else (v : option string) (dflt : string) : string :=
  match v with
  | Some s => if truthy_string s then s else dflt
  | None => dflt
  end.

(** [v || null]. *)
Definition or_null (v : option string) : option string :=
  if truthy v then v else None.

(** The integers a number holds exactly and prints as their plain
    decimal digits: from [-(2^53 - 1)] to [2^53 - 1]. Beyond them a
    number is rounded, and from [1e21] it prints with an exponent. *)
Definition safe_integer (n : Z) : Prop :=
  (- 9007199254740991 <= n <= 9007199254740991)%Z.

(** [String(n)] for a safe integer [n]. *)
Definition number_toString (n : Z) : string :=
  NilEmpty.string_of_int (Z.to_int n).

(** Reading a decimal numeral: the value of a digit, of a run of
    digits, and of an optional minus sign followed by digits. *)
Definition digit_value (c : ascii) : option Z :=
  let n := N_of_ascii c in
  if ((48 <=? n) && (n <=? 57))%N then Some (Z.of_N (n - 48)) else None.

Fixpoint digits_value (acc : Z) (s : string) : option Z :=
  match s with
  | EmptyString => Some acc
  | String c rest =>
      match digit_value c with
      | Some d => digits_value (10 * acc + d) rest
      | None => None
      end
  end.

Definition decimal_value (s : string) : option Z :=
  match s with
  | EmptyString => None
  | String "-" EmptyString => None
  | String "-" rest => option_map Z.opp (digits_value 0 rest)
  | _ => digits_value 0 s
  end.

(** A numeral as a number prints: no leading zero, no minus zero. *)
Definition canonical_numeral (s : string) : bool :=
  match s with
  | String "0" EmptyString => true
  | String "0" _ => false
  | String "-" (String "0" _) => false
  | _ => true
  end.

Definition dquote : ascii := "034"%char.
Definition backslash : ascii := "092"%char.
Definition LF : ascii := "010"%char.

Definition hex_digit (n : N) : ascii :=
  match n with
  | 0 => "0" | 1 => "1" | 2 => "2" | 3 => "3" | 4 => "4" | 5 => "5"
  | 6 => "6" | 7 => "7" | 8 => "8" | 9 => "9" | 10 => "a" | 11 => "b"
  | 12 => "c" | 13 => "d" | 14 => "e" | _ => "f"
  end%N%char.

(** One character of [JSON.stringify] on a string (QuoteJSONString):
    the two-character escapes, [\u00xx] for the other control
    characters, everything else as it is. *)
Definition json_escape (c : ascii) : string :=
  let n := N_of_ascii c in
  match n with
  | 8 => String backslash "b"
  | 9 => String backslash "t"
  | 10 => String backslash "n"
  | 12 => String backslash "f"
  | 13 => String backslash "r"
  | 34 => String backslash (String dquote "")
  | 92 => String backslash (String backslash "")
  | _ => if (n <? 32)%N
         then String backslash
                (String "u" (String "0" (String "0"
                   (String (hex_digit (n / 16)) (String (hex_digit (n mod 16)) "")))))
         else String c ""
  end%N.

Fixpoint json_escape_all (s : string) : string :=
  match s with
  | EmptyString => EmptyString
  | String c rest => json_escape c +:+ json_escape_all rest
  end.

(** [JSON.stringify(s)] for a string [s]. *)
Definition json_string (s : string) : string :=
  String dquote (json_escape_all s +:+ String dquote "").

(** [JSON.stringify(o)] for an object whose own properties, in
    insertion order, are [fields] and whose values are strings. *)
Fixpoint json_members (fields : list (string * string)) : string :=
  match fields with
  | [] => ""
  | [(k, v)] => json_string k +:+ ":" +:+ json_string v
  | (k, v) :: rest => json_string k +:+ ":" +:+ json_string v +:+ "," +:+ json_members rest
  end.

Definition json_object (fields : list (string * string)) : string :=
  "{" +:+ json_members fields +:+ "}".

(** Reading a JSON string literal back, as [JSON.parse] does for the
    characters [JSON.stringify] writes: the value of a hexadecimal
    digit, of an escape of two characters, and of the literal. A raw
    control character is refused, and so is a [\u] escape above 255,
    which no byte holds. *)
Definition hex_value (c : ascii) : option N :=
  let n := N_of_ascii c in
  if ((48 <=? n) && (n <=? 57))%N then Some (n - 48)%N
  else if ((97 <=? n) && (n <=? 102))%N then Some (n - 87)%N
  else if ((65 <=? n) && (n <=? 70))%N then Some (n - 55)%N
  else None.

Definition simple_escape (c : ascii) : option ascii :=
  match c with
  | "034" => Some "034" | "092" => Some "092" | "/" => Some "/"
  | "b" => Some "008" | "f" => Some "012" | "n" => Some "010"
  | "r" => Some "013" | "t" => Some "009"
  | _ => None
  end%char.

Definition hex_escape (h1 h2 h3 h4 : ascii) : option ascii :=
  match hex_value h1, hex_value h2, hex_value h3, hex_value h4 with
  | Some 0%N, Some 0%N, Some a, Some b => Some (ascii_of_N (16 * a + b))
  | _, _, _, _ => None
  end.

Fixpoint unquote_rest (s : string) : option string :=
  match s with
  | EmptyString => None
  | String c rest =>
      if Ascii.eqb c dquote then
        match rest with EmptyString => Some EmptyString | _ => None end
      else if Ascii.eqb c backslash then
        match rest with
        | String "u" (String h1 (String h2 (String h3 (String h4 rest')))) =>
            match hex_escape h1 h2 h3 h4 with
            | Some x => option_map (String x) (unquote_rest rest')
            | None => None
            end
        | String e rest' =>
            match simple_escape e with
            | Some x => option_map (String x) (unquote_rest rest')
            | None => None
            end
        | EmptyString => None
        end
      else if (N_of_ascii c <? 32)%N then None
      else option_map (String c) (unquote_rest rest)
  end.

Definition json_unquote (s : string) : option string :=
  match s with
  | String c rest => if Ascii.eqb c dquote then unquote_rest rest else None
  | EmptyString => None
  end.

End JS.

(** The outcome of an awaited promise. *)
Inductive settled (A : Type) : Type :=
  | Fulfilled (value : A)
  | RejectedWith (message : string).
Arguments Fulfilled {A} value.
Arguments RejectedWith {A} message.

(** ** Port registry: [listPorts] *)

Module Registry.

(** What [SerialPort.list()] reports for one device. *)
Record PortInfo := {
  pi_path : string;
  pi_manufacturer : option string;
  pi_serialNumber : option string;
  pi_vendorId : option string;
  pi_productId : option string
}.

(** What [listPorts] returns for one device. *)
Record PortDescriptor := {
  path : string;
  manufacturer : string
}.

(** The test of the filter, on a path. *)
Definition usb_path (p : string) : bool :=
  JS.includes p "ttyUSB" || JS.includes p "ttyACM".

Definition is_usb_serial (port : PortInfo) : bool :=
  JS.includes (pi_path port) "ttyUSB" || JS.includes (pi_path port) "ttyACM".

Definition describe (port : PortInfo) : PortDescriptor :=
  {| path := pi_path port;
     manufacturer := JS.or_else (pi_manufacturer port) "Unknown" |}.

(** [listPorts()], given the outcome of [await SerialPort.list()]; a
    rejected enumeration rejects the call with the same error. *)
Definition listPorts (enumeration : settled (list PortInfo))
  : settled (list PortDescriptor) :=
  match enumeration with
  | RejectedWith err => RejectedWith err
  | Fulfilled ports =>
      let filteredPorts := List.filter is_usb_serial ports in
      Fulfilled (List.map describe filteredPorts)
  end.

End Registry.

(** ** The session state and the callbacks of [index.mjs] *)

Module Session.

Inductive role := Receiver | Transmitter.

#[global] Instance role_eq_dec : EqDecision role.
Proof. solve_decision. Defined.

Definition role_eqb (a b : role) : bool :=
  match a, b with
  | Receiver, Receiver | Transmitter, Transmitter => true
  | _, _ => false
  end.

(** A [SerialPort] object. It is created with [autoOpen: false] and
    [open()] is called at once, so it starts [Opening]; the ['open']
    event makes it [Open] ([isOpen] is true exactly then); [close()], a
    failed open or the loss of the device make it [Closed]. [sp_role]
    records which of the two connect functions created the object and
    [sp_written] the chunks handed to [write], in order. *)
Inductive port_status := Opening | Open | Closed.

Record serial_port := {
  sp_role : role;
  sp_path : string;
  sp_baudRate : N;
  sp_status : port_status;
  sp_written : list string
}.

(** The response object of an event-stream request: whether the
    transport still accepts writes, and the frames written so far. *)
Record channel := {
  ch_writable : bool;
  ch_frames : list string
}.

(** A [setInterval] timer of a subscriber, times in milliseconds. *)
Record timer := {
  tm_client : nat;
  tm_interval : N;
  tm_due : N
}.

(** Console output, one constructor per call site, carrying the
    interpolated values; [Banner] stands for the three lines printed
    when the server starts, and [SendingCommand] carries the command
    that is printed trimmed. *)
Inductive log_entry :=
  | ReceiverConnected (path : string)
  | ReceiverPortError (message : string)
  | EventLogged (timestamp data : string)
  | TransmitterConnected (path : string)
  | TransmitterPortError (message : string)
  | SendingCommand (command : string)
  | ClientDisconnected
  | Banner
  | ReconnectAttempt (r : role) (path : string)
  | ReconnectFailed (r : role) (message : string).

(** The module-level variables [receiverPort], [transmitterPort] and
    [connectedClients], the heaps of the objects they refer to, the
    active timers, the console and whether the HTTP server listens. *)
Record state := {
  receiverPort : option nat;
  transmitterPort : option nat;
  connectedClients : list nat;
  ports : list serial_port;
  clients : list channel;
  timers : list timer;
  console : list log_entry;
  listening : bool
}.

Definition init : state :=
  {| receiverPort := None; transmitterPort := None; connectedClients := [];
     ports := []; clients := []; timers := []; console := [];
     listening := false |}.

Definition handle (r : role) (s : state) : option nat :=
  match r with
  | Receiver => receiverPort s
  | Transmitter => transmitterPort s
  end.

Definition set_handle (r : role) (v : option nat) (s : state) : state :=
  match r with
  | Receiver =>
      {| receiverPort := v; transmitterPort := transmitterPort s;
         connectedClients := connectedClients s; ports := ports s;
         clients := clients s; timers := timers s; console := console s;
         listening := listening s |}
  | Transmitter =>
      {| receiverPort := receiverPort s; transmitterPort := v;
         connectedClients := connectedClients s; ports := ports s;
         clients := clients s; timers := timers s; console := console s;
         listening := listening s |}
  end.

Definition set_ports (ps : list serial_port) (s : state) : state :=
  {| receiverPort := receiverPort s; transmitterPort := transmitterPort s;
     connectedClients := connectedClients s; ports := ps;
     clients := clients s; timers := timers s; console := console s;
     listening := listening s |}.

Definition set_clients (cs : list channel) (s : state) : state :=
  {| receiverPort := receiverPort s; transmitterPort := transmitterPort s;
     connectedClients := connectedClients s; ports := ports s;
     clients := cs; timers := timers s; console := console s;
     listening := listening s |}.

Definition set_connectedClients (l : list nat) (s : state) : state :=
  {| receiverPort := receiverPort s; transmitterPort := transmitterPort s;
     connectedClients := l; ports := ports s;
     clients := clients s; timers := timers s; console := console s;
     listening := listening s |}.

Definition set_timers (ts : list timer) (s : state) : state :=
  {| receiverPort := receiverPort s; transmitterPort := transmitterPort s;
     connectedClients := connectedClients s; ports := ports s;
     clients := clients s; timers := ts; console := console s;
     listening := listening s |}.

Definition log (e : log_entry) (s : state) : state :=
  {| receiverPort := receiverPort s; transmitterPort := transmitterPort s;
     connectedClients := connectedClients s; ports := ports s;
     clients := clients s; timers := timers s; console := console s ++ [e];
     listening := listening s |}.

Definition set_listening (b : bool) (s : state) : state :=
  {| receiverPort := receiverPort s; transmitterPort := transmitterPort s;
     connectedClients := connectedClients s; ports := ports s;
     clients := clients s; timers := timers s; console := console s;
     listening := b |}.

(** *** Serial ports *)

Definition is_open_status (st : port_status) : bool :=
  match st with Open => true | _ => false end.

Definition is_opening_status (st : port_status) : bool :=
  match st with Opening => true | _ => false end.

(** [port.isOpen] *)
Definition isOpen (s : state) (p : nat) : bool :=
  match ports s !! p with
  | Some sp => is_open_status (sp_status sp)
  | None => false
  end.

Definition with_status (st : port_status) (sp : serial_port) : serial_port :=
  {| sp_role := sp_role sp; sp_path := sp_path sp; sp_baudRate := sp_baudRate sp;
     sp_status := st; sp_written := sp_written sp |}.

Definition with_written (chunk : string) (sp : serial_port) : serial_port :=
  {| sp_role := sp_role sp; sp_path := sp_path sp; sp_baudRate := sp_baudRate sp;
     sp_status := sp_status sp; sp_written := sp_written sp ++ [chunk] |}.

Definition set_status (p : nat) (st : port_status) (s : state) : state :=
  match ports s !! p with
  | Some sp => set_ports (<[p := with_status st sp]> (ports s)) s
  | None => s
  end.

(** [port.close()] *)
Definition close (p : nat) (s : state) : state := set_status p Closed s.

(** [port.write(chunk, callback)], up to the call of the callback. *)
Definition port_write (p : nat) (chunk : string) (s : state) : state :=
  match ports s !! p with
  | Some sp => set_ports (<[p := with_written chunk sp]> (ports s)) s
  | None => s
  end.

(** The result object of a connect call: [{ success: true }] with
    [disconnected: true] added for a disconnect request. *)
Record connect_result := {
  success : bool;
  disconnected : bool
}.

(** What a connect call returns: a promise already settled, or one
    that the events of the new port will settle. *)
Inductive connect_promise :=
  | Settled (outcome : settled connect_result)
  | Awaiting (port : nat).

(** "Close existing connection if any". *)
Definition close_existing (r : role) (s : state) : state :=
  match handle r s with
  | Some p => if isOpen s p then close p s else s
  | None => s
  end.

(** The synchronous part of [connectToReceiver] and
    [connectToTransmitter], which differ in the variable they use and in
    the handlers they register: up to [port.open()]. *)
Definition connect_call (r : role) (portPath : option string) (s : state)
  : state * connect_promise :=
  let s1 := close_existing r s in
  if negb (JS.truthy portPath) then
    (set_handle r None s1,
     Settled (Fulfilled {| success := true; disconnected := true |}))
  else
    let port := {| sp_role := r; sp_path := default "" portPath;
                   sp_baudRate := 9600; sp_status := Opening;
                   sp_written := [] |} in
    (set_ports (ports s1 ++ [port]) s1, Awaiting (length (ports s1))).

Definition connectToReceiver := connect_call Receiver.
Definition connectToTransmitter := connect_call Transmitter.

Definition connected_entry (r : role) (path : string) : log_entry :=
  match r with
  | Receiver => ReceiverConnected path
  | Transmitter => TransmitterConnected path
  end.

Definition port_error_entry (r : role) (message : string) : log_entry :=
  match r with
  | Receiver => ReceiverPortError message
  | Transmitter => TransmitterPortError message
  end.

(** The ['open'] event of port [p]: the port is open, the handler logs,
    stores the port in the variable of its role and resolves. *)
Definition on_open (p : nat) (s : state) : state * settled connect_result :=
  match ports s !! p with
  | Some sp =>
      let s1 := set_status p Open s in
      let s2 := log (connected_entry (sp_role sp) (sp_path sp)) s1 in
      (set_handle (sp_role sp) (Some p) s2,
       Fulfilled {| success := true; disconnected := false |})
  | None => (s, RejectedWith "")
  end.

(** The ['error'] event of a port [p] that failed to open: the handler
    logs and rejects with the error. *)
Definition on_open_error (p : nat) (message : string) (s : state)
  : state * settled connect_result :=
  match ports s !! p with
  | Some sp =>
      let s1 := set_status p Closed s in
      (log (port_error_entry (sp_role sp) message) s1, RejectedWith message)
  | None => (s, RejectedWith message)
  end.

(** The device of an open port goes away. A receiver's port is being
    read through its parser, so the read fails and the port closes; a
    transmitter's port is never read and stays open until a write to
    it fails. The source registers no handler for the close. *)
Definition device_lost (p : nat) (s : state) : state :=
  match ports s !! p with
  | Some sp =>
      match sp_role sp with
      | Receiver => set_status p Closed s
      | Transmitter => s
      end
  | None => s
  end.

(** A write to port [p] fails: the port closes and emits ['error'],
    which its handler logs (its [reject] finds the promise of the
    connect call settled). *)
Definition write_failed (p : nat) (message : string) (s : state) : state :=
  match ports s !! p with
  | Some sp => log (port_error_entry (sp_role sp) message) (set_status p Closed s)
  | None => s
  end.

(** *** Subscribers *)

Definition with_frame (frame : string) (ch : channel) : channel :=
  {| ch_writable := ch_writable ch; ch_frames := ch_frames ch ++ [frame] |}.

(** [client.write(frame)]: on a channel that no longer accepts writes
    the call fails without raising and nothing is delivered. *)
Definition client_write (c : nat) (frame : string) (s : state) : state :=
  match clients s !! c with
  | Some ch =>
      if ch_writable ch then set_clients (<[c := with_frame frame ch]> (clients s)) s
      else s
  | None => s
  end.

(** [connectedClients.forEach(client => client.write(frame))] *)
Definition broadcast (frame : string) (s : state) : state :=
  fold_left (fun st c => client_write c frame st) (connectedClients s) s.

Definition blank_line : string := String JS.LF (String JS.LF "").

Definition event_frame (timestamp data : string) : string :=
  "data: " +:+ JS.json_object [("timestamp", timestamp); ("data", data)] +:+ blank_line.

Definition has_marker (data : string) : bool :=
  JS.includes data "Decoded" || JS.includes data "Ready to receive".

(** The ['data'] handler of the receiver's line parser; [timestamp] is
    [new Date().toLocaleTimeString()] at the time of the call. *)
Definition on_data (timestamp data : string) (s : state) : state :=
  if has_marker data then
    let s1 := broadcast (event_frame timestamp data) s in
    log (EventLogged timestamp data) s1
  else s.

Definition keepalive_frame : string := ": keepalive" +:+ blank_line.
Definition keepalive_interval : N := 30000.

(** The [/api/events] route at time [now]: a fresh response object,
    its keep-alive timer, and the push onto [connectedClients]. *)
Definition subscribe (now : N) (s : state) : state * nat :=
  let res := length (clients s) in
  let s1 := set_clients (clients s ++ [{| ch_writable := true; ch_frames := [] |}]) s in
  let s2 := set_timers (timers s1 ++ [{| tm_client := res;
                                         tm_interval := keepalive_interval;
                                         tm_due := now + keepalive_interval |}]) s1 in
  (set_connectedClients (connectedClients s2 ++ [res]) s2, res).

(** One firing of the keep-alive timer of [res]. *)
Definition advance (res : nat) (t : timer) : timer :=
  if Nat.eqb (tm_client t) res
  then {| tm_client := tm_client t; tm_interval := tm_interval t;
          tm_due := tm_due t + tm_interval t |}
  else t.

Definition has_timer (res : nat) (s : state) : bool :=
  existsb (fun t => Nat.eqb (tm_client t) res) (timers s).

Definition on_keepAlive (res : nat) (s : state) : state :=
  if has_timer res s then
    set_timers (List.map (advance res) (timers s)) (client_write res keepalive_frame s)
  else s.

(** The transport closes the channel of [res]. *)
Definition channel_closed (res : nat) (s : state) : state :=
  match clients s !! res with
  | Some ch => set_clients (<[res := {| ch_writable := false; ch_frames := ch_frames ch |}]> (clients s)) s
  | None => s
  end.

(** The ['close'] handler of the request of [res]. *)
Definition on_request_close (res : nat) (s : state) : state :=
  let s1 := set_timers (List.filter (fun t => negb (Nat.eqb (tm_client t) res)) (timers s)) s in
  let s2 := set_connectedClients
              (List.filter (fun client => negb (Nat.eqb client res)) (connectedClients s1)) s1 in
  log ClientDisconnected s2.

(** *** The transmitter *)

(** [{ success: true }] *)
Record send_result := { send_success : bool }.

Inductive send_promise :=
  | SendSettled (outcome : settled send_result)
  | AwaitingWrite (port : nat).

Definition command_line (protocol : string) (bits : Z) (code : string) : string :=
  protocol +:+ "," +:+ JS.number_toString bits +:+ "," +:+ code +:+ String JS.LF "".

(** [sendIRCommand], up to the call of [transmitterPort.write]. *)
Definition sendIRCommand (protocol : string) (bits : Z) (code : string) (s : state)
  : state * send_promise :=
  match transmitterPort s with
  | Some p =>
      if isOpen s p then
        let command := command_line protocol bits code in
        let s1 := log (SendingCommand command) s in
        (port_write p command s1, AwaitingWrite p)
      else (s, SendSettled (RejectedWith "Transmitter not connected"))
  | None => (s, SendSettled (RejectedWith "Transmitter not connected"))
  end.

(** The callback given to [write]: [err] is the transport's error, if any. *)
Definition write_callback (err : option string) : settled send_result :=
  match err with
  | Some e => RejectedWith e
  | None => Fulfilled {| send_success := true |}
  end.

(** *** Start-up *)

(** The persisted configuration, as the source names its fields. *)
Record config := {
  cfg_receiverPort : option string;
  cfg_transmitterPort : option string
}.

(** [loadConfig()]: the parsed file, or the default when the file is
    missing or cannot be read. *)
Definition loadConfig (file : option config) : config :=
  default {| cfg_receiverPort := None; cfg_transmitterPort := None |} file.

(** [await connectTo...(portPath)] when nothing else runs in between:
    the call, then the event by which the device settles the promise.
    [device path] is [None] when the device at [path] opens and the
    error message otherwise. *)
Definition await_connect (device : string -> option string) (r : role)
    (portPath : option string) (s : state) : state * settled connect_result :=
  match connect_call r portPath s with
  | (s1, Settled outcome) => (s1, outcome)
  | (s1, Awaiting p) =>
      match device (default "" portPath) with
      | None => on_open p s1
      | Some message => on_open_error p message s1
      end
  end.

(** One [if (config.xPort) { log; try { await connect } catch { log } }]. *)
Definition reconnect (device : string -> option string) (r : role)
    (saved : option string) (s : state) : state :=
  if JS.truthy saved then
    let s1 := log (ReconnectAttempt r (default "" saved)) s in
    match await_connect device r saved s1 with
    | (s2, Fulfilled _) => s2
    | (s2, RejectedWith message) => log (ReconnectFailed r message) s2
    end
  else s.

(** [server.listen(PORT, callback)]: the server listens, then the
    callback prints the banner and reconnects the saved ports. *)
Definition server_listen (device : string -> option string)
    (file : option config) (s : state) : state :=
  let s0 := log Banner (set_listening true s) in
  let config := loadConfig file in
  let s1 := reconnect device Receiver (cfg_receiverPort config) s0 in
  reconnect device Transmitter (cfg_transmitterPort config) s1.

(** *** Executions *)

(** What the event loop can run next: a call made by a request
    handler, or a callback of a port (its open, the failure of its
    open, the loss of its device, the failure of a write), a parser, a
    timer or a request. *)
Inductive event :=
  | Connect (r : role) (portPath : option string)
  | PortOpen (p : nat)
  | PortOpenError (p : nat) (message : string)
  | DeviceLost (p : nat)
  | Data (p : nat) (timestamp data : string)
  | Send (protocol : string) (bits : Z) (code : string)
  | Subscribe (now : N)
  | ChannelClosed (res : nat)
  | RequestClose (res : nat)
  | KeepAlive (res : nat)
  | WriteError (p : nat) (message : string).

Definition isOpening (s : state) (p : nat) : bool :=
  match ports s !! p with
  | Some sp => is_opening_status (sp_status sp)
  | None => false
  end.

Definition role_of (s : state) (p : nat) : option role :=
  sp_role <$> ports s !! p.

Definition writable (s : state) (res : nat) : bool :=
  match clients s !! res with
  | Some ch => ch_writable ch
  | None => false
  end.

Definition subscribed (s : state) (res : nat) : bool :=
  existsb (Nat.eqb res) (connectedClients s).

(** Something has been handed to port [p] for writing. *)
Definition has_written (s : state) (p : nat) : bool :=
  match ports s !! p with
  | Some sp => negb (Nat.eqb (length (sp_written sp)) 0)
  | None => false
  end.

(** A port settles its open once; only an open receiver port produces
    lines; a write fails only on an open port that was handed one (the
    writes still pending are not tracked); a request closes once,
    after its channel. *)
Definition enabled (e : event) (s : state) : bool :=
  match e with
  | Connect _ _ | Send _ _ _ | Subscribe _ => true
  | PortOpen p | PortOpenError p _ => isOpening s p
  | DeviceLost p => isOpen s p
  | Data p _ _ =>
      isOpen s p && match role_of s p with Some Receiver => true | _ => false end
  | ChannelClosed res => writable s res
  | RequestClose res => negb (writable s res) && subscribed s res
  | KeepAlive res => has_timer res s
  | WriteError p _ => isOpen s p && has_written s p
  end.

Definition apply (e : event) (s : state) : state :=
  match e with
  | Connect r portPath => fst (connect_call r portPath s)
  | PortOpen p => fst (on_open p s)
  | PortOpenError p message => fst (on_open_error p message s)
  | DeviceLost p => device_lost p s
  | Data _ timestamp data => on_data timestamp data s
  | Send protocol bits code => fst (sendIRCommand protocol bits code s)
  | Subscribe now => fst (subscribe now s)
  | ChannelClosed res => channel_closed res s
  | RequestClose res => on_request_close res s
  | KeepAlive res => on_keepAlive res s
  | WriteError p message => write_failed p message s
  end.

Fixpoint run (es : list event) (s : state) : option state :=
  match es with
  | [] => Some s
  | e :: rest => if enabled e s then run rest (apply e s) else None
  end.

(** *** Observations *)

(** The open ports created for role [r]. *)
Definition open_ports (r : role) (s : state) : list nat :=
  List.filter
    (fun p => match ports s !! p with
              | Some sp => role_eqb (sp_role sp) r && is_open_status (sp_status sp)
              | None => false
              end)
    (seq 0 (length (ports s))).

(** The path saved for role [r]. *)
Definition saved (r : role) (c : config) : option string :=
  match r with
  | Receiver => cfg_receiverPort c
  | Transmitter => cfg_transmitterPort c
  end.

(** The status of port [p], if there is such a port. *)
Definition status_of (s : state) (p : nat) : option port_status :=
  sp_status <$> ports s !! p.

(** Every open port of role [r] is the one the variable of [r] holds. *)
Definition single (r : role) (s : state) : Prop :=
  forall p sp, ports s !! p = Some sp -> sp_role sp = r ->
    sp_status sp = Open -> handle r s = Some p.

(** No port of role [r] is still opening. *)
Definition quiet (r : role) (s : state) : Prop :=
  forall p sp, ports s !! p = Some sp -> sp_role sp = r ->
    sp_status sp <> Opening.

(** Both roles are settled and hold their only open port. *)
Definition one_connection (s : state) : Prop :=
  forall r, single r s /\ quiet r s.

(** The subscriber list names response objects that exist, each once. *)
Definition subscribers_wf (s : state) : Prop :=
  List.NoDup (connectedClients s) /\
  Forall (fun c => c < length (clients s)) (connectedClients s).

(** Every timer belongs to a response object that exists. *)
Definition timers_wf (s : state) : Prop :=
  Forall (fun t => tm_client t < length (clients s)) (timers s).

(** The subscriber [res] is gone: not listed, without a timer, its
    response object still there. *)
Definition gone_inv (res : nat) (s : state) : Prop :=
  ~ In res (connectedClients s) /\ has_timer res s = false /\
  res < length (clients s).

(** Each role's variable refers to a port created for that role. *)
Definition handles_typed (s : state) : Prop :=
  forall r p, handle r s = Some p -> role_of s p = Some r.

(** What a write to a subscriber leaves alone. *)
Definition same_session (s s' : state) : Prop :=
  receiverPort s' = receiverPort s /\ transmitterPort s' = transmitterPort s /\
  connectedClients s' = connectedClients s /\ ports s' = ports s /\
  timers s' = timers s /\ console s' = console s /\ listening s' = listening s.

(** The frames written so far to the response object [res]. *)
Definition frames_of (s : state) (res : nat) : list string :=
  match clients s !! res with
  | Some ch => ch_frames ch
  | None => []
  end.

(** The chunks written so far to port [p]. *)
Definition written_to (s : state) (p : nat) : list string :=
  match ports s !! p with
  | Some sp => sp_written sp
  | None => []
  end.

(** The lines of a receiver, fed to the parser's handler in order. *)
Definition receive (lines : list (string * string)) (s : state) : state :=
  fold_left (fun st line => on_data (fst line) (snd line) st) lines s.

(** The events forwarded so far, read off the console. *)
Definition forwarded (s : state) : list (string * string) :=
  flat_map (fun e => match e with
                     | EventLogged timestamp data => [(timestamp, data)]
                     | _ => []
                     end) (console s).

End Session.

Import Registry Session.

(** ** The stores and the request handlers of [index.mjs] *)

Module Http.

(** A value as [JSON.parse] gives it: numbers are the integers, and
    the fields of an object are its own properties in order, one per
    key. *)
#[warnings="-register-all"]
Inductive json :=
  | JNull
  | JBool (b : bool)
  | JNum (n : Z)
  | JStr (s : string)
  | JArr (items : list json)
  | JObj (fields : list (string * json)).

(** [o[key]] for the fields of an object; [None] is [undefined]. *)
Fixpoint lookup_field (key : string) (fields : list (string * json)) : option json :=
  match fields with
  | [] => None
  | (k, v) :: rest => if String.eqb k key then Some v else lookup_field key rest
  end.

(** [o[key] = v]: an existing property keeps its place, a new one
    (with a key that is not an array index) goes last. *)
Fixpoint set_field (key : string) (v : json) (fields : list (string * json))
  : list (string * json) :=
  match fields with
  | [] => [(key, v)]
  | (k, v0) :: rest =>
      if String.eqb k key then (k, v) :: rest
      else (k, v0) :: set_field key v rest
  end.

(** What is in a JSON file: nothing, a text that cannot be read or
    parsed (with the error's message), or a text that parses to
    [value]. Writing [JSON.stringify(v)] leaves a text that parses to
    [v]. *)
Inductive file_content (A : Type) : Type :=
  | Absent
  | Garbled (message : string)
  | Parsed (value : A).
Arguments Absent {A}.
Arguments Garbled {A} message.
Arguments Parsed {A} value.

(** How a [writeFileSync] ends: the file is written, or the call
    throws and leaves the file as [remains]. *)
Inductive write_outcome (F : Type) : Type :=
  | Written
  | WriteFailed (message : string) (remains : F).
Arguments Written {F}.
Arguments WriteFailed {F} message remains.

(** The [console.error] calls of the store functions. *)
Inductive store_error :=
  | ErrorLoadingButtons (message : string)
  | ErrorSavingButtons (message : string)
  | ErrorSavingConfig (message : string).

(** The process and its two files. [configFile] is the configuration
    that [config.json] parses to, if it can be read. *)
Record server := {
  session : state;
  buttonsFile : file_content json;
  configFile : option config;
  errors : list store_error
}.

Definition set_session (s : state) (sv : server) : server :=
  {| session := s; buttonsFile := buttonsFile sv; configFile := configFile sv;
     errors := errors sv |}.

Definition set_buttonsFile (f : file_content json) (sv : server) : server :=
  {| session := session sv; buttonsFile := f; configFile := configFile sv;
     errors := errors sv |}.

Definition set_configFile (f : option config) (sv : server) : server :=
  {| session := session sv; buttonsFile := buttonsFile sv; configFile := f;
     errors := errors sv |}.

Definition report (e : store_error) (sv : server) : server :=
  {| session := session sv; buttonsFile := buttonsFile sv; configFile := configFile sv;
     errors := errors sv ++ [e] |}.

(** A response: status 200 with a body, or status 500 with
    [{ error: err.message }]; or none, when the handler throws after
    the head of the answer was written: the head of the 500 answer
    cannot be written then, the handler's promise is rejected with
    nothing to handle it, and the process exits. The messages of the
    engine's own errors are not modelled, only their kind. *)
Inductive failure :=
  | SyntaxError
  | TypeError
  | ErrorMessage (message : string).

Inductive response (A : Type) : Type :=
  | Ok200 (body : A)
  | Error500 (cause : failure)
  | NoAnswer.
Arguments Ok200 {A} body.
Arguments Error500 {A} cause.
Arguments NoAnswer {A}.

(** *** Buttons *)

(** [loadButtons()] *)
Definition loadButtons (sv : server) : server * json :=
  match buttonsFile sv with
  | Absent => (sv, JArr [])
  | Garbled message => (report (ErrorLoadingButtons message) sv, JArr [])
  | Parsed buttons => (sv, buttons)
  end.

(** [saveButtons(buttons)] *)
Definition saveButtons (out : write_outcome (file_content json)) (buttons : json)
    (sv : server) : server :=
  match out with
  | Written => set_buttonsFile (Parsed buttons) sv
  | WriteFailed message remains =>
      report (ErrorSavingButtons message) (set_buttonsFile remains sv)
  end.

(** [newButton.id = id], as [JSON.stringify] shows the result: set on
    an object; an own property that is not written for an array; a
    [TypeError] ([None]) for [null] and, the module being strict code,
    for a number, a string or a boolean. *)
Definition assign_id (id : string) (newButton : json) : option json :=
  match newButton with
  | JObj fields => Some (JObj (set_field "id" (JStr id) fields))
  | JArr items => Some (JArr items)
  | JNull | JBool _ | JNum _ | JStr _ => None
  end.

(** [b.id !== id], [id] being a string or [undefined]; [None] is the
    [TypeError] of reading a property of [null]. *)
Definition id_differs (id : option string) (b : json) : option bool :=
  match b with
  | JNull => None
  | JObj fields =>
      Some (match lookup_field "id" fields, id with
            | Some (JStr s), Some i => negb (String.eqb s i)
            | None, None => false
            | _, _ => true
            end)
  | JBool _ | JNum _ | JStr _ | JArr _ =>
      Some (match id with Some _ => true | None => false end)
  end.

(** [buttons.filter(b => b.id !== id)] on the items of an array. *)
Fixpoint filter_id (id : option string) (items : list json) : option (list json) :=
  match items with
  | [] => Some []
  | b :: rest =>
      match id_differs id b with
      | None => None
      | Some keep =>
          match filter_id id rest with
          | None => None
          | Some kept => Some (if keep then b :: kept else kept)
          end
      end
  end.

(** [s.split(sep)] for a separator of one character. *)
Fixpoint split_on (sep : ascii) (s : string) : list string :=
  match s with
  | EmptyString => [EmptyString]
  | String c rest =>
      if Ascii.eqb c sep then EmptyString :: split_on sep rest
      else match split_on sep rest with
           | seg :: segs => String c seg :: segs
           | [] => [String c EmptyString]
           end
  end.

(** [url.pathname.split('/')[3]] *)
Definition path_id (pathname : string) : option string :=
  nth_error (split_on "/" pathname) 3.

(** [GET /api/buttons] *)
Definition api_buttons_get (sv : server) : server * response json :=
  let (sv1, buttons) := loadButtons sv in
  (sv1, Ok200 buttons).

(** The ['end'] handler of [POST /api/buttons]: [body] is what
    [JSON.parse] gives for the request body ([None] when it throws),
    [now] is [Date.now()]. *)
Definition api_buttons_post (body : option json) (now : Z)
    (out : write_outcome (file_content json)) (sv : server)
  : server * response json :=
  match body with
  | None => (sv, Error500 SyntaxError)
  | Some newButton =>
      let (sv1, buttons) := loadButtons sv in
      match assign_id (JS.number_toString now) newButton with
      | None => (sv1, Error500 TypeError)
      | Some created =>
          match buttons with
          | JArr items =>
              let buttons' := JArr (items ++ [created]) in
              (saveButtons out buttons' sv1, Ok200 buttons')
          | _ => (sv1, Error500 TypeError)
          end
      end
  end.

(** [DELETE /api/buttons/...] *)
Definition api_buttons_delete (pathname : string)
    (out : write_outcome (file_content json)) (sv : server)
  : server * response json :=
  let id := path_id pathname in
  let (sv1, buttons) := loadButtons sv in
  match buttons with
  | JArr items =>
      match filter_id id items with
      | Some kept => (saveButtons out (JArr kept) sv1, Ok200 (JArr kept))
      | None => (sv1, Error500 TypeError)
      end
  | _ => (sv1, Error500 TypeError)
  end.

(** *** Configuration and connections *)

(** [saveConfig(config)] *)
Definition saveConfig (out : write_outcome (option config)) (c : config)
    (sv : server) : server :=
  match out with
  | Written => set_configFile (Some c) sv
  | WriteFailed message remains =>
      report (ErrorSavingConfig message) (set_configFile remains sv)
  end.

(** [GET /api/config] *)
Definition api_config_get (sv : server) : server * response config :=
  (sv, Ok200 (loadConfig (configFile sv))).

(** The body of [POST /api/connect], destructured: [port] and [type],
    each a string or absent. *)
Record connect_body := {
  cb_port : option string;
  cb_type : option string
}.

(** [{ success: true, port, type, disconnected }] *)
Record connect_response := {
  cr_port : option string;
  cr_type : option string;
  cr_disconnected : bool
}.

Definition role_of_type (type : option string) : option role :=
  match type with
  | Some t =>
      if String.eqb t "receiver" then Some Receiver
      else if String.eqb t "transmitter" then Some Transmitter
      else None
  | None => None
  end.

Definition with_saved (r : role) (v : option string) (c : config) : config :=
  match r with
  | Receiver => {| cfg_receiverPort := v; cfg_transmitterPort := cfg_transmitterPort c |}
  | Transmitter => {| cfg_receiverPort := cfg_receiverPort c; cfg_transmitterPort := v |}
  end.

(** The process exits: its ports, subscribers and timers go with it,
    the files stay. *)
Definition exit (sv : server) : server := set_session init sv.

(** The ['end'] handler of [POST /api/connect], the connect call
    awaited with nothing running in between. With a type that is
    neither role no connect call is made and there is no result: the
    configuration is saved, the head of the 200 answer is written, and
    reading [result.disconnected] throws; the head of the 500 answer
    cannot be written any more, so no answer is sent and the process
    exits on the rejection nothing handles. *)
Definition api_connect (device : string -> option string) (body : option connect_body)
    (out : write_outcome (option config)) (sv : server)
  : server * response connect_response :=
  match body with
  | None => (sv, Error500 SyntaxError)
  | Some b =>
      match role_of_type (cb_type b) with
      | Some r =>
          match await_connect device r (cb_port b) (session sv) with
          | (s1, RejectedWith message) =>
              (set_session s1 sv, Error500 (ErrorMessage message))
          | (s1, Fulfilled result) =>
              let sv1 := set_session s1 sv in
              let c := with_saved r (JS.or_null (cb_port b)) (loadConfig (configFile sv1)) in
              (saveConfig out c sv1,
               Ok200 {| cr_port := cb_port b; cr_type := cb_type b;
                        cr_disconnected := disconnected result |})
          end
      | None =>
          (exit (saveConfig out (loadConfig (configFile sv)) sv), NoAnswer)
      end
  end.

(** The body of [POST /api/send], destructured. *)
Record send_body := {
  sb_protocol : string;
  sb_bits : Z;
  sb_code : string
}.

(** The ['end'] handler of [POST /api/send]; [ack] is the error the
    transport gives to the write's callback, if any: a failed write
    also closes the port and is logged by the port's ['error']
    handler. *)
Definition api_send (body : option send_body) (ack : option string) (sv : server)
  : server * response send_result :=
  match body with
  | None => (sv, Error500 SyntaxError)
  | Some b =>
      match sendIRCommand (sb_protocol b) (sb_bits b) (sb_code b) (session sv) with
      | (s1, SendSettled (Fulfilled r)) => (set_session s1 sv, Ok200 r)
      | (s1, SendSettled (RejectedWith message)) =>
          (set_session s1 sv, Error500 (ErrorMessage message))
      | (s1, AwaitingWrite p) =>
          match write_callback ack with
          | Fulfilled r => (set_session s1 sv, Ok200 r)
          | RejectedWith message =>
              (set_session (write_failed p message s1) sv,
               Error500 (ErrorMessage message))
          end
      end
  end.

(** The process starts again: the session is new, the files stay. *)
Definition restart (device : string -> option string) (sv : server) : server :=
  set_session (server_listen device (configFile sv) init) sv.

(** A server that has just been installed: nothing connected, no file. *)
Definition fresh : server :=
  {| session := init; buttonsFile := Absent; configFile := None; errors := [] |}.

(** *** Requests on the button store *)

Inductive button_request :=
  | GetButtons
  | PostButton (body : option json) (now : Z) (out : write_outcome (file_content json))
  | DeleteButton (pathname : string) (out : write_outcome (file_content json)).

Definition serve (q : button_request) (sv : server) : server * response json :=
  match q with
  | GetButtons => api_buttons_get sv
  | PostButton body now out => api_buttons_post body now out sv
  | DeleteButton pathname out => api_buttons_delete pathname out sv
  end.

Definition serve_all (qs : list button_request) (sv : server) : server :=
  fold_left (fun st q => fst (serve q st)) qs sv.

(** The [id] a button shows: the string in its [id] field, if any. *)
Definition button_id (b : json) : option string :=
  match b with
  | JObj fields =>
      match lookup_field "id" fields with
      | Some (JStr s) => Some s
      | _ => None
      end
  | _ => None
  end.

(** Something [assign_id] accepts. *)
Definition is_container (b : json) : bool :=
  match b with
  | JObj _ | JArr _ => true
  | _ => false
  end.

(** The buttons a request finds: the array in the file, no button
    when the file is missing or unreadable; [None] when the file holds
    a value that is not an array. *)
Definition stored (sv : server) : option (list json) :=
  match buttonsFile sv with
  | Absent | Garbled _ => Some []
  | Parsed (JArr items) => Some items
  | Parsed _ => None
  end.

(** A button file as the handlers leave it: missing, unreadable, or an
    array of objects and arrays. *)
Definition sound_store (f : file_content json) : Prop :=
  match f with
  | Absent | Garbled _ => True
  | Parsed (JArr items) => Forall (fun b => is_container b = true) items
  | Parsed _ => False
  end.

Definition sound_outcome (out : write_outcome (file_content json)) : Prop :=
  match out with
  | Written => True
  | WriteFailed _ remains => sound_store remains
  end.

Definition sound_request (q : button_request) : Prop :=
  match q with
  | GetButtons => True
  | PostButton _ _ out | DeleteButton _ out => sound_outcome out
  end.

(** The file after a write of [buttons] that ends as [out]. *)
Definition after_write (out : write_outcome (file_content json)) (buttons : json)
  : file_content json :=
  match out with
  | Written => Parsed buttons
  | WriteFailed _ remains => remains
  end.

(** The buttons of [items] whose id is not [id]. *)
Definition without_id (id : string) (items : list json) : list json :=
  List.filter (fun b => negb (bool_decide (button_id b = Some id))) items.

(** [type] in the body of a connect request for role [r]. *)
Definition type_of_role (r : role) : string :=
  match r with
  | Receiver => "receiver"
  | Transmitter => "transmitter"
  end.

End Http.

Import Http.

(** ** Concrete inputs used below *)

Definition sample_enumeration : list PortInfo :=
  [ {| pi_path := "/dev/ttyUSB0"; pi_manufacturer := None; pi_serialNumber := None;
       pi_vendorId := None; pi_productId := None |} ].

(** Two subscribers, the first of which has lost its channel while its
    request's close event is still to come. *)
Definition one_channel_closed : state :=
  apply (ChannelClosed 0) (apply (Subscribe 10) (apply (Subscribe 0) init)).

(** A transmitter connected to a device that opened. *)
Definition transmitter_connected : state :=
  apply (PortOpen 0) (apply (Connect Transmitter (Some "/dev/ttyUSB1")) init).

(** Two connect requests for the receiver, the second made before the
    port of the first has opened; then both ports open. *)
Definition overlapping_connects : list event :=
  [ Connect Receiver (Some "/dev/ttyUSB0");
    Connect Receiver (Some "/dev/ttyUSB1");
    PortOpen 0;
    PortOpen 1 ].

Definition both_open : state :=
  apply (PortOpen 1) (apply (PortOpen 0)
    (apply (Connect Receiver (Some "/dev/ttyUSB1"))
       (apply (Connect Receiver (Some "/dev/ttyUSB0")) init))).

(** A connect request for the receiver, a disconnect request made
    before the port has opened, then the port opens. *)
Definition disconnect_in_flight : list event :=
  [ Connect Receiver (Some "/dev/ttyUSB0");
    Connect Receiver None;
    PortOpen 0 ].

Definition opened_after_disconnect : state :=
  apply (PortOpen 0) (apply (Connect Receiver None)
    (apply (Connect Receiver (Some "/dev/ttyUSB0")) init)).

(** A receiver connected to a device that opened. *)
Definition receiver_connected : state :=
  apply (PortOpen 0) (apply (Connect Receiver (Some "/dev/ttyUSB0")) init).

(** No serial device can be opened. *)
Definition no_device (path : string) : option string :=
  Some ("Error: No such file or directory, cannot open " +:+ path).

(** ** Proof steps used more than once *)

(** The cases of a button file that holds an array or nothing. *)
Ltac store_cases H :=
  unfold stored in H;
  match type of H with
  | context [buttonsFile ?sv] =>
      let Hf := fresh "Hf" in
      destruct (buttonsFile sv) as [|?|[| | | |?|]] eqn:Hf;
      try discriminate H; injection H as H; subst
  end.

(** Evaluate one reconnect of the start-up callback, by cases on what
    the device does. *)
Ltac eval_reconnect device r Hd :=
  let s1 := fresh "s" in
  let H := fresh "H" in
  remember (reconnect device r _ _) as s1 eqn:H;
  unfold reconnect, await_connect, connect_call in H; cbn in H;
  try rewrite Hd in H; cbn in H;
  try match type of H with
      | context [device ?x] =>
          let E := fresh "E" in
          let m := fresh "message" in
          destruct (device x) as [m|] eqn:E; try rewrite E in H; cbn in H
      end;
  subst s1.

(** Evaluate the value of the digit at the head of a numeral. *)
Ltac eval_digit :=
  match goal with
  | |- context [JS.digit_value ?c] =>
      let v := eval vm_compute in (JS.digit_value c) in
      change (JS.digit_value c) with v; cbv iota beta
  end.

(** * Properties *)

(** ** Strings *)

Section Strings.

Lemma append_cons (x : ascii) (a b : string) :
  String x a +:+ b = String x (a +:+ b).
Proof. reflexivity. Qed.

Lemma append_nil_l (a : string) : "" +:+ a = a.
Proof. reflexivity. Qed.

Lemma append_assoc (a b c : string) : (a +:+ b) +:+ c = a +:+ b +:+ c.
Proof.
  induction a as [|x a IH]; [reflexivity|].
  now rewrite !append_cons, IH.
Qed.

Lemma append_nil_r (a : string) : a +:+ "" = a.
Proof.
  induction a as [|x a IH]; [reflexivity|].
  now rewrite append_cons, IH.
Qed.

Lemma prefix_split (needle s : string) :
  String.prefix needle s = true <-> exists after, s = needle +:+ after.
Proof.
  revert s. induction needle as [|x needle IH]; intros s.
  - split; [intros _; now exists s | intros _; now destruct s].
  - destruct s as [|y s]; simpl.
    + split; [discriminate | intros [after H]; discriminate].
    + destruct (ascii_dec x y) as [->|Hne].
      * rewrite IH. split; intros [after H]; exists after.
        -- now rewrite append_cons, <- H.
        -- rewrite append_cons in H. congruence.
      * split; [discriminate | intros [after H]].
        rewrite append_cons in H. congruence.
Qed.

Lemma includes_unfold (s needle : string) :
  JS.includes s needle =
  if String.prefix needle s then true
  else match s with
       | EmptyString => false
       | String _ rest => JS.includes rest needle
       end.
Proof. destruct s; reflexivity. Qed.

(** [includes] decides occurrence as a contiguous run. *)
Lemma includes_contains (s needle : string) :
  JS.includes s needle = true <-> JS.contains s needle.
Proof.
  split.
  - induction s as [|x s IH]; rewrite includes_unfold;
      destruct (String.prefix needle _) eqn:Hp.
    + intros _. apply prefix_split in Hp as [after H]. now exists "", after.
    + discriminate.
    + intros _. apply prefix_split in Hp as [after H]. now exists "", after.
    + intros H. destruct (IH H) as (before & after & ->).
      now exists (String x before), after.
  - intros (before & after & ->).
    induction before as [|x before IH]; rewrite includes_unfold.
    + replace (String.prefix needle ("" +:+ needle +:+ after)) with true; [reflexivity|].
      symmetry. apply prefix_split. now exists after.
    + destruct (String.prefix needle _); [reflexivity | exact IH].
Qed.

Lemma includes_false (s needle : string) :
  JS.includes s needle = false <-> ~ JS.contains s needle.
Proof.
  rewrite <- includes_contains. destruct (JS.includes s needle); split; intros H;
    try reflexivity; try discriminate; try (intros H'; discriminate).
  now contradiction H.
Qed.

(** *** Numbers in decimal *)

Lemma digits_value_acc (d : Decimal.uint) (acc : positive) :
  JS.digits_value (Z.pos acc) (NilEmpty.string_of_uint d)
  = Some (Z.pos (Pos.of_uint_acc d acc)).
Proof.
  revert acc.
  induction d; intros acc;
    cbn [NilEmpty.string_of_uint JS.digits_value Pos.of_uint_acc];
    [reflexivity | ..]; eval_digit;
    match goal with
    | |- JS.digits_value ?z _ = Some (Z.pos (Pos.of_uint_acc _ ?q)) =>
        replace z with (Z.pos q) by lia; apply IHd
    end.
Qed.

Lemma digits_value_uint (d : Decimal.uint) :
  JS.digits_value 0 (NilEmpty.string_of_uint d) = Some (Z.of_N (Pos.of_uint d)).
Proof.
  induction d;
    cbn [NilEmpty.string_of_uint JS.digits_value Pos.of_uint];
    [reflexivity | ..]; eval_digit; [exact IHd | ..];
    match goal with
    | |- JS.digits_value ?z _ = Some (Z.of_N (N.pos (Pos.of_uint_acc _ ?q))) =>
        change z with (Z.pos q); apply digits_value_acc
    end.
Qed.

(** The digits of a positive number start with a digit other than 0. *)
Lemma to_uint_head (p : positive) :
  exists c rest, NilEmpty.string_of_uint (Pos.to_uint p) = String c rest /\
                 c <> "0"%char /\ c <> "-"%char.
Proof.
  pose proof (DecimalPos.Unsigned.to_uint_nonnil p) as Hn.
  pose proof (DecimalPos.Unsigned.to_uint_nonzero p) as Hz.
  pose proof (DecimalPos.Unsigned.to_of (Pos.to_uint p)) as Hu.
  rewrite DecimalPos.Unsigned.of_to in Hu.
  change (N.to_uint (N.pos p)) with (Pos.to_uint p) in Hu.
  destruct (Pos.to_uint p) as [|d|d|d|d|d|d|d|d|d|d] eqn:E; try congruence;
    try (eexists _, _; split; [reflexivity | split; discriminate]).
  exfalso. unfold Decimal.unorm in Hu.
  destruct (Decimal.nzhead (Decimal.D0 d)) eqn:En; try congruence.
  symmetry in Hu. revert Hu. rewrite <- En. apply DecimalFacts.nzhead_nonzero.
Qed.

(** Reading back what [String(n)] prints gives [n]. *)
Lemma decimal_value_toString (n : Z) :
  JS.decimal_value (JS.number_toString n) = Some n.
Proof.
  unfold JS.number_toString. destruct n as [|p|p]; [reflexivity | |];
    cbn [Z.to_int NilEmpty.string_of_int];
    destruct (to_uint_head p) as (c & rest & E & H0 & Hm);
    assert (V := digits_value_uint (Pos.to_uint p));
    rewrite DecimalPos.Unsigned.of_to in V; rewrite E in *;
    unfold JS.decimal_value.
  - destruct c as [[] [] [] [] [] [] [] []]; try exact V; congruence.
  - rewrite V. reflexivity.
Qed.

(** [String(n)] has no leading zero and is never minus zero. *)
Lemma canonical_toString (n : Z) :
  JS.canonical_numeral (JS.number_toString n) = true.
Proof.
  unfold JS.number_toString. destruct n as [|p|p]; [reflexivity | |];
    cbn [Z.to_int NilEmpty.string_of_int];
    destruct (to_uint_head p) as (c & rest & E & H0 & Hm); rewrite E;
    unfold JS.canonical_numeral;
    destruct c as [[] [] [] [] [] [] [] []]; try reflexivity; congruence.
Qed.

(** *** String literals of JSON *)

Lemma unquote_escape (c : ascii) (rest : string) :
  JS.unquote_rest (JS.json_escape c +:+ rest)
  = option_map (String c) (JS.unquote_rest rest).
Proof. destruct c as [[] [] [] [] [] [] [] []]; reflexivity. Qed.

Lemma unquote_escape_all (s : string) :
  JS.unquote_rest (JS.json_escape_all s +:+ String JS.dquote "") = Some s.
Proof.
  induction s as [|c s IH]; [reflexivity|].
  cbn [JS.json_escape_all]. rewrite append_assoc, unquote_escape, IH. reflexivity.
Qed.

(** Reading back what [JSON.stringify] writes for a string gives the
    string. *)
Lemma json_unquote_string (s : string) :
  JS.json_unquote (JS.json_string s) = Some s.
Proof. unfold JS.json_string, JS.json_unquote. simpl. apply unquote_escape_all. Qed.

(** A string of printable characters other than the quote and the
    backslash is written between quotes as it is. *)
Lemma json_string_plain (s : string) :
  forallb (fun x => (32 <=? N_of_ascii x)%N && negb (Ascii.eqb x "034")
                    && negb (Ascii.eqb x "092"))
    (list_ascii_of_string s) = true ->
  JS.json_string s = String "034" (s +:+ String "034" "").
Proof.
  intros H. unfold JS.json_string. change JS.dquote with "034"%char. f_equal.
  induction s as [|c s IH]; [reflexivity|].
  cbn [list_ascii_of_string forallb] in H. apply andb_prop in H as [Hc Hs].
  cbn [JS.json_escape_all]. rewrite append_assoc, (IH Hs), (append_cons c). 
  clear IH Hs. revert Hc.
  destruct c as [[] [] [] [] [] [] [] []]; intros Hc; try discriminate Hc; reflexivity.
Qed.

End Strings.

Example includes_ex1 : JS.includes "/dev/ttyUSB0" "ttyUSB" = true.
Proof. reflexivity. Qed.

Example includes_ex2 : JS.includes "/dev/ttyS0" "ttyUSB" || JS.includes "/dev/ttyS0" "ttyACM" = false.
Proof. reflexivity. Qed.

Example number_toString_ex :
  (JS.number_toString 32, JS.number_toString 0, JS.number_toString (-5)) = ("32", "0", "-5").
Proof. reflexivity. Qed.

(** ** Port registry *)

Section PortRegistry.

Lemma is_usb_serial_contains (port : PortInfo) :
  is_usb_serial port = true <->
  JS.contains (pi_path port) "ttyUSB" \/ JS.contains (pi_path port) "ttyACM".
Proof.
  unfold is_usb_serial. rewrite orb_true_iff, !includes_contains. reflexivity.
Qed.

Lemma paths_of_described (l : list PortInfo) :
  List.map path (List.map describe (List.filter is_usb_serial l))
  = List.filter usb_path (List.map pi_path l).
Proof.
  induction l as [|port l IH]; [reflexivity|]. simpl.
  change (usb_path (pi_path port)) with (is_usb_serial port).
  destruct (is_usb_serial port); simpl; now rewrite IH.
Qed.

Lemma filter_sublist {A} (f : A -> bool) (l : list A) :
  sublist (List.filter f l) l.
Proof.
  induction l as [|a l IH]; simpl; [constructor|].
  destruct (f a); now constructor.
Qed.

Lemma filter_nil_iff {A} (f : A -> bool) (l : list A) :
  List.filter f l = [] <-> Forall (fun a => f a = false) l.
Proof.
  induction l as [|a l IH]; simpl.
  - split; [constructor | reflexivity].
  - destruct (f a) eqn:Hf.
    + split; [discriminate | intros H; inversion H; congruence].
    + rewrite IH. split; [now constructor | intros H; now inversion H].
Qed.

(** C9. [listPorts] returns the enumerated devices whose path contains
    "ttyUSB" or "ttyACM", and only those, in the order of the
    enumeration; with no such device the result is the empty list, as
    a success; a failed enumeration rejects with the same error. *)
Theorem listPorts_usb_devices_in_order (enumerated : list PortInfo) :
  exists ds,
    listPorts (Fulfilled enumerated) = Fulfilled ds /\
    List.map path ds = List.filter usb_path (List.map pi_path enumerated) /\
    (forall d, In d ds <->
       exists port, In port enumerated /\
         (JS.contains (pi_path port) "ttyUSB" \/ JS.contains (pi_path port) "ttyACM") /\
         d = describe port) /\
    sublist (List.map path ds) (List.map pi_path enumerated) /\
    (ds = [] <-> Forall (fun port => is_usb_serial port = false) enumerated) /\
    (forall err, listPorts (RejectedWith err) = RejectedWith err).
Proof.
  exists (List.map describe (List.filter is_usb_serial enumerated)).
  split; [reflexivity|]. split; [apply paths_of_described|].
  split; [|split; [|split]].
  - intros d. rewrite in_map_iff. split.
    + intros (port & <- & Hin). apply filter_In in Hin as [Hin Husb].
      exists port. now rewrite <- is_usb_serial_contains.
    + intros (port & Hin & Husb & ->). exists port. split; [reflexivity|].
      apply filter_In. now rewrite is_usb_serial_contains.
  - rewrite paths_of_described. apply filter_sublist.
  - rewrite <- filter_nil_iff.
    destruct (List.filter is_usb_serial enumerated); simpl; split; congruence.
  - reflexivity.
Qed.

Example listPorts_ex :
  listPorts (Fulfilled
    [ {| pi_path := "/dev/ttyS0"; pi_manufacturer := None; pi_serialNumber := None;
         pi_vendorId := None; pi_productId := None |};
      {| pi_path := "/dev/ttyUSB0"; pi_manufacturer := Some "FTDI"; pi_serialNumber := None;
         pi_vendorId := Some "0403"; pi_productId := Some "6001" |};
      {| pi_path := "/dev/ttyACM0"; pi_manufacturer := None; pi_serialNumber := None;
         pi_vendorId := None; pi_productId := None |} ])
  = Fulfilled [ {| path := "/dev/ttyUSB0"; manufacturer := "FTDI" |};
                {| path := "/dev/ttyACM0"; manufacturer := "Unknown" |} ].
Proof. reflexivity. Qed.

Lemma or_else_nonempty (v : option string) (dflt : string) :
  dflt <> "" -> JS.or_else v dflt <> "".
Proof.
  intros Hd. destruct v as [[|c s]|]; simpl; try exact Hd. discriminate.
Qed.

(** C10. Every descriptor returned by [listPorts] carries the path the
    enumeration reported, unchanged, and a manufacturer that is not the
    empty string: "Unknown" when the reported manufacturer is absent,
    the reported one when it is a non-empty string. *)
Theorem listPorts_manufacturer_default
    (enumerated : list PortInfo) (ds : list PortDescriptor) :
  listPorts (Fulfilled enumerated) = Fulfilled ds ->
  forall d, In d ds ->
    manufacturer d <> "" /\
    exists port, In port enumerated /\
      path d = pi_path port /\
      (pi_manufacturer port = None -> manufacturer d = "Unknown") /\
      (forall m, pi_manufacturer port = Some m -> m <> "" -> manufacturer d = m).
Proof.
  intros H d Hin. simpl in H. injection H as <-.
  apply in_map_iff in Hin as (port & <- & Hin). apply filter_In in Hin as [Hin _].
  split; [apply or_else_nonempty; discriminate|].
  exists port. split; [exact Hin|]. split; [reflexivity|]. split.
  - intros Hm. simpl. now rewrite Hm.
  - intros m Hm Hne. simpl. rewrite Hm. destruct m; [congruence | reflexivity].
Qed.

Lemma listPorts_manufacturer_default_witness :
  manufacturer {| path := "/dev/ttyUSB0"; manufacturer := "Unknown" |} <> "" /\
  exists port, In port sample_enumeration /\
    path {| path := "/dev/ttyUSB0"; manufacturer := "Unknown" |} = pi_path port /\
    (pi_manufacturer port = None ->
       manufacturer {| path := "/dev/ttyUSB0"; manufacturer := "Unknown" |} = "Unknown") /\
    (forall m, pi_manufacturer port = Some m -> m <> "" ->
       manufacturer {| path := "/dev/ttyUSB0"; manufacturer := "Unknown" |} = m).
Proof.
  apply (listPorts_manufacturer_default sample_enumeration
           [ {| path := "/dev/ttyUSB0"; manufacturer := "Unknown" |} ]).
  - reflexivity.
  - simpl. left. reflexivity.
Defined.

End PortRegistry.

(** ** Subscribers and the broadcast *)

Section Broadcast.

Lemma client_write_frames (c c' : nat) (frame : string) (s : state) :
  frames_of (client_write c frame s) c'
  = frames_of s c' ++ (if Nat.eqb c c' && writable s c then [frame] else []).
Proof.
  unfold client_write, frames_of, writable.
  destruct (clients s !! c) as [ch|] eqn:Hc.
  - destruct (ch_writable ch) eqn:Hw; simpl.
    + destruct (Nat.eqb_spec c c') as [<-|Hne]; simpl.
      * rewrite list_lookup_insert_eq by (eapply lookup_lt_Some; eauto).
        now rewrite Hc.
      * rewrite list_lookup_insert_ne by exact Hne. now rewrite app_nil_r.
    + rewrite andb_false_r. now rewrite app_nil_r.
  - rewrite andb_false_r. now rewrite app_nil_r.
Qed.

Lemma client_write_writable (c c' : nat) (frame : string) (s : state) :
  writable (client_write c frame s) c' = writable s c'.
Proof.
  unfold client_write, writable.
  destruct (clients s !! c) as [ch|] eqn:Hc; [|reflexivity].
  destruct (ch_writable ch) eqn:Hw; [|reflexivity]. simpl.
  destruct (Nat.eq_dec c c') as [<-|Hne].
  - rewrite list_lookup_insert_eq by (eapply lookup_lt_Some; eauto).
    now rewrite Hc.
  - now rewrite list_lookup_insert_ne.
Qed.

Lemma same_session_refl (s : state) : same_session s s.
Proof. repeat split. Qed.

Lemma same_session_trans (s1 s2 s3 : state) :
  same_session s1 s2 -> same_session s2 s3 -> same_session s1 s3.
Proof. unfold same_session. intuition congruence. Qed.

Lemma client_write_same (c : nat) (frame : string) (s : state) :
  same_session s (client_write c frame s).
Proof.
  unfold client_write. destruct (clients s !! c) as [ch|];
    [destruct (ch_writable ch)|]; repeat split.
Qed.

Lemma write_all_same (frame : string) (l : list nat) (s : state) :
  same_session s (fold_left (fun st c => client_write c frame st) l s).
Proof.
  revert s. induction l as [|c l IH]; intros s; simpl.
  - apply same_session_refl.
  - eapply same_session_trans; [apply client_write_same | apply IH].
Qed.

Lemma write_all_writable (frame : string) (l : list nat) (s : state) (c : nat) :
  writable (fold_left (fun st c => client_write c frame st) l s) c = writable s c.
Proof.
  revert s. induction l as [|c0 l IH]; intros s; simpl; [reflexivity|].
  now rewrite IH, client_write_writable.
Qed.

Lemma write_all_frames (frame : string) (l : list nat) (s : state) (c : nat) :
  frames_of (fold_left (fun st c => client_write c frame st) l s) c
  = frames_of s c ++
    (if writable s c then repeat frame (count_occ Nat.eq_dec l c) else []).
Proof.
  revert s. induction l as [|c0 l IH]; intros s; simpl.
  - destruct (writable s c); now rewrite app_nil_r.
  - rewrite IH, client_write_frames, client_write_writable, <- app_assoc.
    f_equal. destruct (Nat.eq_dec c0 c) as [->|Hne].
    + rewrite Nat.eqb_refl. simpl. now destruct (writable s c).
    + apply Nat.eqb_neq in Hne. rewrite Hne. simpl. reflexivity.
Qed.

Lemma broadcast_same (frame : string) (s : state) :
  same_session s (broadcast frame s).
Proof. apply write_all_same. Qed.

Lemma broadcast_writable (frame : string) (s : state) (c : nat) :
  writable (broadcast frame s) c = writable s c.
Proof. apply write_all_writable. Qed.

(** A broadcast appends the frame to a subscriber once per occurrence
    in [connectedClients], if its channel accepts writes, whatever the
    other subscribers' channels do. *)
Lemma broadcast_frames (frame : string) (s : state) (c : nat) :
  frames_of (broadcast frame s) c
  = frames_of s c ++
    (if writable s c
     then repeat frame (count_occ Nat.eq_dec (connectedClients s) c) else []).
Proof. apply write_all_frames. Qed.

End Broadcast.

(** ** Frames on the event stream *)

Section Frames.

Lemma on_data_frames (timestamp data : string) (s : state) (c : nat) :
  frames_of (on_data timestamp data s) c
  = frames_of s c ++
    (if has_marker data && writable s c
     then repeat (event_frame timestamp data)
            (count_occ Nat.eq_dec (connectedClients s) c)
     else []).
Proof.
  unfold on_data. destruct (has_marker data); simpl.
  - change (frames_of (log (EventLogged timestamp data)
                         (broadcast (event_frame timestamp data) s)) c)
      with (frames_of (broadcast (event_frame timestamp data) s) c).
    apply broadcast_frames.
  - now rewrite app_nil_r.
Qed.

Lemma on_data_subscribers (timestamp data : string) (s : state) :
  connectedClients (on_data timestamp data s) = connectedClients s.
Proof.
  unfold on_data. destruct (has_marker data); [|reflexivity].
  simpl. apply (broadcast_same (event_frame timestamp data) s).
Qed.

Lemma on_data_writable (timestamp data : string) (s : state) (c : nat) :
  writable (on_data timestamp data s) c = writable s c.
Proof.
  unfold on_data. destruct (has_marker data); [|reflexivity].
  apply (broadcast_writable (event_frame timestamp data) s c).
Qed.

(** The frames a subscriber gets from a sequence of lines: one frame
    for each line with a marker, in the order of the lines. *)
Lemma receive_frames (lines : list (string * string)) (s : state) (c : nat) :
  frames_of (receive lines s) c
  = frames_of s c ++
    (if writable s c
     then flat_map (fun line => repeat (event_frame (fst line) (snd line))
                                  (count_occ Nat.eq_dec (connectedClients s) c))
            (List.filter (fun line => has_marker (snd line)) lines)
     else []).
Proof.
  revert s. induction lines as [|[timestamp data] lines IH]; intros s.
  - simpl. destruct (writable s c); now rewrite app_nil_r.
  - unfold receive in *. simpl fold_left. rewrite IH.
    rewrite on_data_frames, on_data_writable, on_data_subscribers, <- app_assoc.
    f_equal. simpl. destruct (has_marker data), (writable s c); reflexivity.
Qed.

Lemma on_keepAlive_frames (res c : nat) (s : state) :
  frames_of (on_keepAlive res s) c
  = frames_of s c ++
    (if has_timer res s && (Nat.eqb res c && writable s res)
     then [keepalive_frame] else []).
Proof.
  unfold on_keepAlive. destruct (has_timer res s); simpl.
  - change (frames_of (set_timers (List.map (advance res) (timers s))
                         (client_write res keepalive_frame s)) c)
      with (frames_of (client_write res keepalive_frame s) c).
    apply client_write_frames.
  - now rewrite app_nil_r.
Qed.

Lemma json_escape_printable (c : ascii) :
  forallb (fun x => (32 <=? N_of_ascii x)%N)
    (list_ascii_of_string (JS.json_escape c)) = true.
Proof. destruct c as [[] [] [] [] [] [] [] []]; vm_compute; reflexivity. Qed.

Lemma list_ascii_of_append (a b : string) :
  list_ascii_of_string (a +:+ b) = list_ascii_of_string a ++ list_ascii_of_string b.
Proof.
  induction a as [|x a IH]; [reflexivity|].
  rewrite append_cons. simpl. now rewrite IH.
Qed.

(** [JSON.stringify] of a string has no control character in it, so no
    line break: the event frame is one [data:] line and a blank line. *)
Lemma json_string_printable (s : string) :
  forallb (fun x => (32 <=? N_of_ascii x)%N)
    (list_ascii_of_string (JS.json_string s)) = true.
Proof.
  unfold JS.json_string. simpl. rewrite list_ascii_of_append, forallb_app. simpl.
  rewrite andb_true_r.
  induction s as [|c s IH]; [reflexivity|]. simpl.
  now rewrite list_ascii_of_append, forallb_app, json_escape_printable, IH.
Qed.

Lemma advance_other (res : nat) (l : list timer) :
  Forall (fun t => tm_client t <> res) l -> List.map (advance res) l = l.
Proof.
  induction 1 as [|t l Ht _ IH]; [reflexivity|]. simpl. rewrite IH. f_equal.
  unfold advance. apply Nat.eqb_neq in Ht. now rewrite Ht.
Qed.

(** The due time of the keep-alive timer of [res] after [k] firings. *)
Lemma keepAlive_schedule (res : nat) (due : N) (k : nat) (old : list timer) (s : state) :
  Forall (fun t => tm_client t <> res) old ->
  timers s = old ++ [{| tm_client := res; tm_interval := keepalive_interval;
                        tm_due := due |}] ->
  timers (Nat.iter k (on_keepAlive res) s)
  = old ++ [{| tm_client := res; tm_interval := keepalive_interval;
               tm_due := due + N.of_nat k * keepalive_interval |}].
Proof.
  intros Hfresh Hs. induction k as [|k IH].
  - simpl. rewrite Hs. do 3 f_equal. lia.
  - rewrite Nat.iter_succ. unfold on_keepAlive at 1.
    assert (Ht : has_timer res (Nat.iter k (on_keepAlive res) s) = true).
    { unfold has_timer. rewrite IH, existsb_app. simpl.
      now rewrite Nat.eqb_refl, orb_true_r. }
    rewrite Ht. simpl. rewrite IH, map_app, advance_other by exact Hfresh.
    simpl. unfold advance. simpl. rewrite Nat.eqb_refl.
    unfold keepalive_interval. do 3 f_equal. lia.
Qed.

Lemma event_frame_bytes (timestamp data : string) :
  event_frame timestamp data
  = "data: {" +:+ String "034"%char "timestamp" +:+ String "034"%char ":"
      +:+ JS.json_string timestamp
      +:+ "," +:+ String "034"%char "data" +:+ String "034"%char ":"
      +:+ JS.json_string data
      +:+ "}" +:+ String "010"%char (String "010"%char "").
Proof.
  unfold event_frame, JS.json_object, JS.json_members, blank_line.
  rewrite !append_assoc. reflexivity.
Qed.

(** C7. An event is written to a subscriber as the text "data: ", the
    JSON object with the fields timestamp and data, and a blank line:
    the two keys between quotes, each value as a JSON string literal,
    which reads back as the value, has no control character in it, and
    is the value between quotes when the value has only printable
    characters other than the quote and the backslash. A firing of a
    subscriber's keep-alive timer writes ": keepalive" and a blank
    line to that subscriber and to no other; the timer is set at
    subscription with an interval of 30000 ms, so its firings are due
    30 s apart. *)
Theorem event_stream_wire_format
    (timestamp data : string) (now : N) (k : nat) (s : state) (c : nat) :
  frames_of (on_data timestamp data s) c
    = frames_of s c ++
      (if has_marker data && writable s c
       then repeat ("data: {" +:+ String "034"%char "timestamp" +:+ String "034"%char ":"
                      +:+ JS.json_string timestamp
                      +:+ "," +:+ String "034"%char "data" +:+ String "034"%char ":"
                      +:+ JS.json_string data
                      +:+ "}" +:+ String "010"%char (String "010"%char ""))
              (count_occ Nat.eq_dec (connectedClients s) c)
       else []) /\
  (forall v : string,
     JS.json_unquote (JS.json_string v) = Some v /\
     forallb (fun x => (32 <=? N_of_ascii x)%N)
       (list_ascii_of_string (JS.json_string v)) = true /\
     (forallb (fun x => (32 <=? N_of_ascii x)%N && negb (Ascii.eqb x "034")
                        && negb (Ascii.eqb x "092"))
        (list_ascii_of_string v) = true ->
      JS.json_string v = String "034"%char (v +:+ String "034"%char ""))) /\
  (forall res,
     frames_of (on_keepAlive res s) c
     = frames_of s c ++
       (if has_timer res s && (Nat.eqb res c && writable s res)
        then [": keepalive" +:+ String "010"%char (String "010"%char "")] else [])) /\
  (let (s1, res) := subscribe now s in
   res = length (clients s) /\
   connectedClients s1 = connectedClients s ++ [res] /\
   frames_of s1 res = [] /\
   timers s1 = timers s ++ [{| tm_client := res; tm_interval := 30 * 1000;
                               tm_due := now + 30 * 1000 |}] /\
   (Forall (fun t => tm_client t <> res) (timers s) ->
    timers (Nat.iter k (on_keepAlive res) s1)
    = timers s ++ [{| tm_client := res; tm_interval := 30 * 1000;
                      tm_due := now + (N.of_nat k + 1) * (30 * 1000) |}])).
Proof.
  split; [|split; [|split]].
  - rewrite on_data_frames, event_frame_bytes. reflexivity.
  - intros v. split; [apply json_unquote_string|].
    split; [apply json_string_printable | apply json_string_plain].
  - intros res. apply on_keepAlive_frames.
  - simpl. split; [reflexivity|]. split; [reflexivity|]. split.
    + unfold frames_of. simpl. rewrite lookup_app_r by reflexivity.
      now rewrite Nat.sub_diag.
    + split; [reflexivity|]. intros Hfresh.
      erewrite keepAlive_schedule; [|exact Hfresh|reflexivity].
      unfold keepalive_interval. do 3 f_equal. lia.
Qed.

Lemma event_stream_wire_format_witness :
  frames_of (on_data "1:02:03 PM" "Decoded NEC\32" one_channel_closed) 1
  = ["data: {" +:+ String "034"%char "timestamp" +:+ String "034"%char ":"
       +:+ String "034"%char "1:02:03 PM" +:+ String "034"%char ","
       +:+ String "034"%char "data" +:+ String "034"%char ":"
       +:+ String "034"%char "Decoded NEC\\32" +:+ String "034"%char "}"
       +:+ String "010"%char (String "010"%char "")] /\
  JS.json_unquote (String "034"%char "Decoded NEC\\32" +:+ String "034"%char "")
  = Some "Decoded NEC\32" /\
  JS.json_string "1:02:03 PM" = String "034"%char "1:02:03 PM" +:+ String "034"%char "" /\
  frames_of (on_keepAlive 1 one_channel_closed) 1
  = [": keepalive" +:+ String "010"%char (String "010"%char "")] /\
  frames_of (on_keepAlive 1 one_channel_closed) 0 = [] /\
  timers (Nat.iter 2 (on_keepAlive 0) (fst (subscribe 5 init)))
  = [{| tm_client := 0; tm_interval := 30000; tm_due := 90005 |}].
Proof.
  destruct (event_stream_wire_format "1:02:03 PM" "Decoded NEC\32" 5 2
              one_channel_closed 1) as (F & J & K1 & _).
  destruct (event_stream_wire_format "1:02:03 PM" "Decoded NEC\32" 5 2
              one_channel_closed 0) as (_ & _ & K0 & _).
  destruct (event_stream_wire_format "" "" 5 2 init 0) as (_ & _ & _ & T).
  simpl in T. destruct T as (_ & _ & _ & _ & T).
  split; [exact F|].
  split; [exact (proj1 (J "Decoded NEC\32"))|].
  split; [exact (proj2 (proj2 (J "1:02:03 PM")) eq_refl)|].
  split; [exact (K1 1)|].
  split; [exact (K0 1)|].
  apply T. constructor.
Defined.

Example event_frame_ex :
  event_frame "1:02:03 PM" "Decoded NEC 32 0x1"
  = "data: {" +:+ String JS.dquote "timestamp" +:+ String JS.dquote ":"
      +:+ String JS.dquote "1:02:03 PM" +:+ String JS.dquote ","
      +:+ String JS.dquote "data" +:+ String JS.dquote ":"
      +:+ String JS.dquote "Decoded NEC 32 0x1" +:+ String JS.dquote "}"
      +:+ String JS.LF (String JS.LF "").
Proof. reflexivity. Qed.

End Frames.

(** ** The receiver's line filter *)

Section LineFilter.

Lemma has_marker_contains (data : string) :
  has_marker data = true <->
  JS.contains data "Decoded" \/ JS.contains data "Ready to receive".
Proof. unfold has_marker. now rewrite orb_true_iff, !includes_contains. Qed.

Lemma on_data_console (timestamp data : string) (s : state) :
  console (on_data timestamp data s)
  = console s ++ (if has_marker data then [EventLogged timestamp data] else []).
Proof.
  unfold on_data. destruct (has_marker data); [|now rewrite app_nil_r].
  simpl. f_equal. apply (broadcast_same (event_frame timestamp data) s).
Qed.

Lemma on_data_forwarded (timestamp data : string) (s : state) :
  forwarded (on_data timestamp data s)
  = forwarded s ++ (if has_marker data then [(timestamp, data)] else []).
Proof.
  unfold forwarded. rewrite on_data_console, flat_map_app.
  now destruct (has_marker data).
Qed.

Lemma receive_forwarded (lines : list (string * string)) (s : state) :
  forwarded (receive lines s)
  = forwarded s ++ List.filter (fun line => has_marker (snd line)) lines.
Proof.
  revert s. induction lines as [|[timestamp data] lines IH]; intros s; simpl.
  - now rewrite app_nil_r.
  - unfold receive in *. simpl. rewrite IH, on_data_forwarded, <- app_assoc.
    now destruct (has_marker data).
Qed.

Lemma filter_length_full {A} (f : A -> bool) (l : list A) :
  length (List.filter f l) = length l <-> Forall (fun a => f a = true) l.
Proof.
  induction l as [|a l IH]; simpl.
  - split; [constructor | reflexivity].
  - pose proof (List.filter_length_le f l) as Hle. destruct (f a) eqn:Hf; simpl.
    + split.
      * intros H. constructor; [exact Hf | apply IH; lia].
      * intros H. inversion H; subst. f_equal. now apply IH.
    + split; [lia | intros H; inversion H; congruence].
Qed.

(** C1. A line is forwarded exactly when it contains "Decoded" or
    "Ready to receive"; a line with neither changes nothing. So of the
    lines read, the forwarded ones are those with a marker, in order,
    and a subscriber with a working channel gets one frame for each of
    them: at most as many as were read, and as many exactly when every
    line has a marker. *)
Theorem receiver_forwards_marked_lines_only
    (lines : list (string * string)) (s : state) :
  (forall timestamp data,
     (JS.contains data "Decoded" \/ JS.contains data "Ready to receive") ->
     forwarded (on_data timestamp data s) = forwarded s ++ [(timestamp, data)]) /\
  (forall timestamp data,
     ~ (JS.contains data "Decoded" \/ JS.contains data "Ready to receive") ->
     on_data timestamp data s = s) /\
  forwarded (receive lines s)
    = forwarded s ++ List.filter (fun line => has_marker (snd line)) lines /\
  (forall c, In c (connectedClients s) -> List.NoDup (connectedClients s) ->
     writable s c = true ->
     frames_of (receive lines s) c
     = frames_of s c ++
       List.map (fun line => event_frame (fst line) (snd line))
         (List.filter (fun line => has_marker (snd line)) lines)) /\
  length (forwarded (receive lines s)) <= length (forwarded s) + length lines /\
  (length (forwarded (receive lines s)) = length (forwarded s) + length lines <->
   Forall (fun line => JS.contains (snd line) "Decoded" \/
                       JS.contains (snd line) "Ready to receive") lines).
Proof.
  split; [|split; [|split; [|split; [|split]]]].
  - intros timestamp data H. apply has_marker_contains in H.
    now rewrite on_data_forwarded, H.
  - intros timestamp data H. unfold on_data.
    destruct (has_marker data) eqn:Hm; [|reflexivity].
    now apply has_marker_contains in Hm.
  - apply receive_forwarded.
  - intros c Hin Hnd Hw. rewrite receive_frames, Hw. f_equal.
    rewrite (proj1 (NoDup_count_occ' Nat.eq_dec _) Hnd c Hin).
    induction (List.filter _ lines) as [|line l IH]; [reflexivity|].
    simpl in *. now f_equal.
  - rewrite receive_forwarded, length_app.
    pose proof (List.filter_length_le (fun line => has_marker (snd line)) lines). lia.
  - rewrite receive_forwarded, length_app.
    rewrite (Forall_iff _ _ (fun line => has_marker (snd line) = true))
      by (intros line; symmetry; apply has_marker_contains).
    rewrite <- filter_length_full. lia.
Qed.

Lemma receiver_forwards_marked_lines_only_witness :
  frames_of (receive [ ("1:02:03 PM", "Decoded NEC 32 0x1");
                       ("1:02:04 PM", "noise");
                       ("1:02:05 PM", "Ready to receive") ] one_channel_closed) 1
  = [ event_frame "1:02:03 PM" "Decoded NEC 32 0x1";
      event_frame "1:02:05 PM" "Ready to receive" ].
Proof.
  pose proof (receiver_forwards_marked_lines_only
                [ ("1:02:03 PM", "Decoded NEC 32 0x1");
                  ("1:02:04 PM", "noise");
                  ("1:02:05 PM", "Ready to receive") ] one_channel_closed)
    as (_ & _ & _ & H & _).
  apply (H 1).
  - simpl. right. left. reflexivity.
  - repeat constructor; simpl; lia.
  - reflexivity.
Defined.

Example receive_scenario :
  forwarded (receive [ ("1:02:03 PM", "Decoded NEC 32 0x1");
                       ("1:02:04 PM", "noise");
                       ("1:02:05 PM", "Ready to receive") ] receiver_connected)
  = [ ("1:02:03 PM", "Decoded NEC 32 0x1"); ("1:02:05 PM", "Ready to receive") ].
Proof. reflexivity. Qed.

End LineFilter.

(** ** Failed deliveries *)

Section FailedDelivery.

Lemma on_request_close_subscribers (res : nat) (s : state) :
  connectedClients (on_request_close res s)
  = List.filter (fun client => negb (Nat.eqb client res)) (connectedClients s).
Proof. reflexivity. Qed.

Lemma on_request_close_timer (res : nat) (s : state) :
  has_timer res (on_request_close res s) = false.
Proof.
  unfold has_timer, on_request_close. simpl.
  induction (timers s) as [|t l IH]; [reflexivity|]. simpl.
  destruct (Nat.eqb (tm_client t) res) eqn:Ht; simpl; [exact IH|].
  now rewrite Ht, IH.
Qed.

(** C3, as the source has it. Each subscriber whose channel accepts the
    write receives the event once, and a subscriber whose channel does
    not receives nothing, whatever the channels of the others do. The
    broadcast leaves the subscriber set as it is; a subscriber leaves
    the set, and loses its keep-alive timer, when its request's close
    event fires, and that removes no other subscriber. *)
Theorem broadcast_isolates_failed_writes
    (timestamp data : string) (s : state) :
  List.NoDup (connectedClients s) ->
  has_marker data = true ->
  (forall c, In c (connectedClients s) -> writable s c = true ->
     frames_of (on_data timestamp data s) c
     = frames_of s c ++ [event_frame timestamp data]) /\
  (forall c, writable s c = false ->
     frames_of (on_data timestamp data s) c = frames_of s c) /\
  connectedClients (on_data timestamp data s) = connectedClients s /\
  (forall res,
     ~ In res (connectedClients (on_request_close res s)) /\
     has_timer res (on_request_close res s) = false /\
     (forall c, c <> res ->
        (In c (connectedClients (on_request_close res s)) <->
         In c (connectedClients s)))).
Proof.
  intros Hnd Hm. split; [|split; [|split]].
  - intros c Hin Hw. rewrite on_data_frames, Hm, Hw. simpl.
    rewrite (proj1 (NoDup_count_occ' Nat.eq_dec _) Hnd c Hin). reflexivity.
  - intros c Hw. rewrite on_data_frames, Hw, andb_false_r. apply app_nil_r.
  - apply on_data_subscribers.
  - intros res. rewrite on_request_close_subscribers. split; [|split].
    + rewrite filter_In, Nat.eqb_refl. intros [_ H]. discriminate.
    + apply on_request_close_timer.
    + intros c Hne. rewrite filter_In. apply Nat.eqb_neq in Hne. rewrite Hne.
      simpl. tauto.
Qed.

Lemma broadcast_isolates_failed_writes_witness :
  frames_of (on_data "1:02:03 PM" "Decoded NEC 32 0x1" one_channel_closed) 1
  = [event_frame "1:02:03 PM" "Decoded NEC 32 0x1"].
Proof.
  assert (Hnd : List.NoDup (connectedClients one_channel_closed)).
  { repeat constructor; simpl; lia. }
  pose proof (broadcast_isolates_failed_writes
                "1:02:03 PM" "Decoded NEC 32 0x1" one_channel_closed Hnd eq_refl)
    as [H _].
  apply (H 1); [simpl; auto | reflexivity].
Defined.

(** C3, as stated, fails: with two subscribers, the first of which has
    a channel that no longer accepts writes, an event reaches the
    second subscriber only, and the first is still in the subscriber
    set afterwards. *)
Lemma failed_subscriber_stays_subscribed :
  run [Subscribe 0; Subscribe 10; ChannelClosed 0] init = Some one_channel_closed /\
  connectedClients one_channel_closed = [0; 1] /\
  writable one_channel_closed 0 = false /\
  frames_of (on_data "1:02:03 PM" "Decoded NEC 32 0x1" one_channel_closed) 0 = [] /\
  frames_of (on_data "1:02:03 PM" "Decoded NEC 32 0x1" one_channel_closed) 1
    = [event_frame "1:02:03 PM" "Decoded NEC 32 0x1"] /\
  In 0 (connectedClients (on_data "1:02:03 PM" "Decoded NEC 32 0x1" one_channel_closed)).
Proof. vm_compute. repeat split; auto. Qed.

(** *** The subscriber list in every execution *)

Lemma client_write_length (c : nat) (frame : string) (s : state) :
  length (clients (client_write c frame s)) = length (clients s).
Proof.
  unfold client_write. destruct (clients s !! c) as [ch|]; [|reflexivity].
  destruct (ch_writable ch); [|reflexivity]. simpl. apply length_insert.
Qed.

Lemma write_all_length (frame : string) (l : list nat) (s : state) :
  length (clients (fold_left (fun st c => client_write c frame st) l s))
  = length (clients s).
Proof.
  revert s. induction l as [|c l IH]; intros s; simpl; [reflexivity|].
  now rewrite IH, client_write_length.
Qed.

Lemma on_data_length (timestamp data : string) (s : state) :
  length (clients (on_data timestamp data s)) = length (clients s).
Proof.
  unfold on_data. destruct (has_marker data); [|reflexivity].
  simpl. apply write_all_length.
Qed.

Lemma set_status_clients (p : nat) (st : port_status) (s : state) :
  connectedClients (set_status p st s) = connectedClients s /\
  clients (set_status p st s) = clients s.
Proof. unfold set_status. now destruct (ports s !! p). Qed.

(** The loss of a device either goes unnoticed or closes the port. *)
Lemma device_lost_cases (p : nat) (s : state) :
  device_lost p s = s \/ device_lost p s = set_status p Closed s.
Proof.
  unfold device_lost. destruct (ports s !! p) as [sp|]; [|now left].
  destruct (sp_role sp); [now right | now left].
Qed.

(** A failed write either finds no port or closes it and logs. *)
Lemma write_failed_cases (p : nat) (message : string) (s : state) :
  write_failed p message s = s \/
  exists r, write_failed p message s
            = log (port_error_entry r message) (set_status p Closed s).
Proof.
  unfold write_failed. destruct (ports s !! p) as [sp|]; [right; eauto | now left].
Qed.

Lemma close_existing_clients (r : role) (s : state) :
  connectedClients (close_existing r s) = connectedClients s /\
  clients (close_existing r s) = clients s.
Proof.
  unfold close_existing. destruct (handle r s) as [p|]; [|now split].
  destruct (isOpen s p); [apply set_status_clients | now split].
Qed.

(** Apart from a subscription and a request's close, no step changes
    the subscriber list or the number of response objects. *)
Lemma apply_subscribers (e : event) (s : state) :
  match e with
  | Subscribe _ =>
      connectedClients (apply e s) = connectedClients s ++ [length (clients s)] /\
      length (clients (apply e s)) = S (length (clients s))
  | RequestClose res =>
      connectedClients (apply e s)
        = List.filter (fun c => negb (Nat.eqb c res)) (connectedClients s) /\
      length (clients (apply e s)) = length (clients s)
  | _ =>
      connectedClients (apply e s) = connectedClients s /\
      length (clients (apply e s)) = length (clients s)
  end.
Proof.
  destruct e as [r portPath|p|p message|p|p timestamp data|protocol bits code
                 |now|res|res|res|p message]; simpl.
  - unfold connect_call. destruct (close_existing_clients r s) as [H1 H2].
    destruct (negb (JS.truthy portPath)); simpl.
    + destruct r; simpl; now rewrite H1, H2.
    + now rewrite H1, H2.
  - unfold on_open. destruct (ports s !! p) as [sp|]; [|now split]. simpl.
    destruct (set_status_clients p Open s) as [H1 H2].
    destruct (sp_role sp); simpl; now rewrite H1, H2.
  - unfold on_open_error. destruct (ports s !! p) as [sp|]; [|now split]. simpl.
    destruct (set_status_clients p Closed s) as [H1 H2]. now rewrite H1, H2.
  - destruct (device_lost_cases p s) as [-> | ->]; [now split|].
    destruct (set_status_clients p Closed s) as [H1 H2]. now rewrite H1, H2.
  - split; [apply on_data_subscribers | apply on_data_length].
  - unfold sendIRCommand. destruct (transmitterPort s) as [p|]; [|now split].
    destruct (isOpen s p); [|now split]. simpl.
    unfold port_write. simpl. now destruct (ports s !! p).
  - split; [reflexivity|]. rewrite length_app. simpl. lia.
  - unfold channel_closed. destruct (clients s !! res); [|now split].
    simpl. split; [reflexivity | apply length_insert].
  - now split.
  - unfold on_keepAlive. destruct (has_timer res s); [|now split]. simpl.
    split; [apply (client_write_same res keepalive_frame s) | apply client_write_length].
  - destruct (write_failed_cases p message s) as [-> | [r ->]]; [now split|].
    destruct (set_status_clients p Closed s) as [H1 H2]. simpl. now rewrite H1, H2.
Qed.

Lemma apply_subscribers_wf (e : event) (s : state) :
  subscribers_wf s -> subscribers_wf (apply e s).
Proof.
  intros [Hnd Hlt]. pose proof (apply_subscribers e s) as H.
  unfold subscribers_wf.
  destruct e; destruct H as [-> ->]; try (split; assumption).
  - split.
    + apply List.NoDup_app; [exact Hnd | repeat constructor; auto |].
      intros c Hc [<-|[]]. rewrite List.Forall_forall in Hlt.
      specialize (Hlt _ Hc). lia.
    + apply Forall_app. split.
      * eapply Forall_impl; [exact Hlt | intros c Hc; simpl in *; lia].
      * repeat constructor.
  - split.
    + now apply List.NoDup_filter.
    + rewrite List.Forall_forall in *. intros c Hc.
      apply filter_In in Hc as [Hc _]. now apply Hlt.
Qed.

(** In every execution from the initial state a subscriber occurs once
    in [connectedClients]. *)
Lemma run_subscribers_wf (es : list event) (s s' : state) :
  subscribers_wf s -> run es s = Some s' -> subscribers_wf s'.
Proof.
  revert s. induction es as [|e es IH]; intros s Hwf; simpl.
  - now intros [= <-].
  - destruct (enabled e s); [|discriminate].
    apply IH. now apply apply_subscribers_wf.
Qed.

Lemma init_subscribers_wf : subscribers_wf init.
Proof. split; constructor. Qed.

Lemma set_status_timers (p : nat) (st : port_status) (s : state) :
  timers (set_status p st s) = timers s.
Proof. unfold set_status. now destruct (ports s !! p). Qed.

Lemma close_existing_timers (r : role) (s : state) :
  timers (close_existing r s) = timers s.
Proof.
  unfold close_existing. destruct (handle r s) as [p|]; [|reflexivity].
  destruct (isOpen s p); [apply set_status_timers | reflexivity].
Qed.

Lemma apply_timers (e : event) (s : state) :
  match e with
  | Subscribe now =>
      timers (apply e s)
      = timers s ++ [{| tm_client := length (clients s);
                        tm_interval := keepalive_interval;
                        tm_due := now + keepalive_interval |}]
  | RequestClose res =>
      timers (apply e s)
      = List.filter (fun t => negb (Nat.eqb (tm_client t) res)) (timers s)
  | KeepAlive res =>
      timers (apply e s)
      = if has_timer res s then List.map (advance res) (timers s) else timers s
  | _ => timers (apply e s) = timers s
  end.
Proof.
  destruct e as [r portPath|p|p message|p|p timestamp data|protocol bits code
                 |now|res|res|res|p message]; simpl.
  - unfold connect_call. pose proof (close_existing_timers r s) as H.
    destruct (negb (JS.truthy portPath)); simpl; [destruct r; simpl|]; exact H.
  - unfold on_open. destruct (ports s !! p) as [sp|]; [|reflexivity]. simpl.
    pose proof (set_status_timers p Open s) as H. destruct (sp_role sp); exact H.
  - unfold on_open_error. destruct (ports s !! p) as [sp|]; [|reflexivity].
    apply (set_status_timers p Closed s).
  - destruct (device_lost_cases p s) as [-> | ->];
      [reflexivity | apply set_status_timers].
  - unfold on_data. destruct (has_marker data); [|reflexivity].
    simpl. apply (broadcast_same (event_frame timestamp data) s).
  - unfold sendIRCommand. destruct (transmitterPort s) as [p|]; [|reflexivity].
    destruct (isOpen s p); [|reflexivity]. simpl.
    unfold port_write. simpl. now destruct (ports s !! p).
  - reflexivity.
  - unfold channel_closed. now destruct (clients s !! res).
  - reflexivity.
  - unfold on_keepAlive. now destruct (has_timer res s).
  - destruct (write_failed_cases p message s) as [-> | [r ->]]; [reflexivity|].
    apply (set_status_timers p Closed s).
Qed.

Lemma advance_client (res : nat) (t : timer) :
  tm_client (advance res t) = tm_client t.
Proof. unfold advance. now destruct (Nat.eqb (tm_client t) res). Qed.

Lemma apply_timers_wf (e : event) (s : state) :
  timers_wf s -> timers_wf (apply e s).
Proof.
  unfold timers_wf. intros Hwf.
  pose proof (apply_timers e s) as Ht. pose proof (apply_subscribers e s) as Hc.
  destruct e; destruct Hc as [_ ->]; rewrite Ht; try exact Hwf.
  - apply Forall_app. split.
    + eapply Forall_impl; [exact Hwf | intros t H; simpl in *; lia].
    + constructor; [simpl; lia | constructor].
  - rewrite List.Forall_forall in *. intros t H.
    apply filter_In in H as [H _]. now apply Hwf.
  - destruct (has_timer res s); [|exact Hwf].
    rewrite List.Forall_forall in *. intros t H.
    apply in_map_iff in H as (t0 & <- & H). rewrite advance_client. now apply Hwf.
Qed.

(** In every execution from the initial state the response object of a
    new subscription has no timer yet. *)
Lemma run_timers_wf (es : list event) (s s' : state) :
  timers_wf s -> run es s = Some s' ->
  timers_wf s' /\ Forall (fun t => tm_client t <> length (clients s')) (timers s').
Proof.
  revert s. induction es as [|e es IH]; intros s Hwf; simpl.
  - intros [= <-]. split; [exact Hwf|].
    eapply Forall_impl; [exact Hwf | intros t H; simpl in *; lia].
  - destruct (enabled e s); [|discriminate].
    apply IH. now apply apply_timers_wf.
Qed.

End FailedDelivery.

(** ** Sending commands *)

Section Transmit.

Lemma port_write_written (p q : nat) (chunk : string) (s : state) :
  written_to (port_write p chunk s) q
  = written_to s q ++ (if Nat.eqb p q && bool_decide (is_Some (ports s !! p))
                       then [chunk] else []).
Proof.
  unfold port_write, written_to.
  destruct (ports s !! p) as [sp|] eqn:Hp; simpl.
  - destruct (Nat.eqb_spec p q) as [<-|Hne]; simpl.
    + rewrite list_lookup_insert_eq by (eapply lookup_lt_Some; eauto).
      rewrite Hp. reflexivity.
    + rewrite list_lookup_insert_ne by exact Hne. now rewrite app_nil_r.
  - rewrite andb_false_r. now rewrite app_nil_r.
Qed.

Lemma isOpen_is_Some (s : state) (p : nat) :
  isOpen s p = true -> is_Some (ports s !! p).
Proof. unfold isOpen. destruct (ports s !! p); [eauto | discriminate]. Qed.

(** C4. With no open transmitter connection, that is with
    [transmitterPort] empty or holding a port that is not open,
    [sendIRCommand] rejects at once with "Transmitter not connected",
    the error reaches the caller, and nothing is written to any port:
    the state is the one before the call. *)
Theorem send_without_transmitter_rejects
    (protocol : string) (bits : Z) (code : string) (s : state) :
  (transmitterPort s = None \/
   exists p, transmitterPort s = Some p /\ isOpen s p = false) ->
  sendIRCommand protocol bits code s
    = (s, SendSettled (RejectedWith "Transmitter not connected")) /\
  forall q, written_to (fst (sendIRCommand protocol bits code s)) q = written_to s q.
Proof.
  intros H.
  assert (E : sendIRCommand protocol bits code s
              = (s, SendSettled (RejectedWith "Transmitter not connected"))).
  { unfold sendIRCommand. destruct H as [-> | (p & -> & ->)]; reflexivity. }
  split; [exact E | intros q; now rewrite E].
Qed.

Lemma send_without_transmitter_rejects_witness :
  sendIRCommand "NEC" 32 "0x1" init
    = (init, SendSettled (RejectedWith "Transmitter not connected")) /\
  forall q, written_to (fst (sendIRCommand "NEC" 32 "0x1" init)) q = written_to init q.
Proof.
  apply (send_without_transmitter_rejects "NEC" 32 "0x1" init).
  left. reflexivity.
Defined.

Example send_after_failed_write_rejects :
  sendIRCommand "NEC" 32 "0x1" (write_failed 0 "EIO" transmitter_connected)
  = (write_failed 0 "EIO" transmitter_connected,
     SendSettled (RejectedWith "Transmitter not connected")).
Proof. reflexivity. Qed.

Example transmitter_loss_goes_unnoticed :
  apply (DeviceLost 0) transmitter_connected = transmitter_connected.
Proof. reflexivity. Qed.

(** C5. On a connected transmitter [sendIRCommand] hands to the port,
    in one write, exactly the protocol, the bit length in decimal and
    the code, separated by commas and ended by a line feed, and writes
    to no other port; the bit length is a safe integer, which prints
    as the one numeral without leading zero that reads back as it. The
    promise is still pending then, and the write's callback settles
    it: fulfilled when the transport reports no error, rejected with
    the transport's error otherwise. *)
Theorem send_writes_command_line
    (protocol : string) (bits : Z) (code : string) (s : state) (p : nat) :
  JS.safe_integer bits ->
  transmitterPort s = Some p ->
  isOpen s p = true ->
  snd (sendIRCommand protocol bits code s) = AwaitingWrite p /\
  written_to (fst (sendIRCommand protocol bits code s)) p
    = written_to s p ++
      [protocol +:+ "," +:+ JS.number_toString bits +:+ "," +:+ code
       +:+ String "010"%char ""] /\
  JS.decimal_value (JS.number_toString bits) = Some bits /\
  JS.canonical_numeral (JS.number_toString bits) = true /\
  (forall q, q <> p ->
     written_to (fst (sendIRCommand protocol bits code s)) q = written_to s q) /\
  write_callback None = Fulfilled {| send_success := true |} /\
  (forall err, write_callback (Some err) = RejectedWith err).
Proof.
  intros _ Ht Ho. unfold sendIRCommand. rewrite Ht, Ho. simpl.
  split; [reflexivity|].
  pose proof (isOpen_is_Some s p Ho) as Hs.
  split; [|split; [|split; [|split; [|split]]]].
  - rewrite port_write_written. simpl. rewrite Nat.eqb_refl.
    now rewrite bool_decide_eq_true_2.
  - apply decimal_value_toString.
  - apply canonical_toString.
  - intros q Hne. rewrite port_write_written. apply Nat.eqb_neq in Hne.
    assert (E : Nat.eqb p q = false) by (rewrite Nat.eqb_sym; exact Hne).
    rewrite E. apply app_nil_r.
  - reflexivity.
  - reflexivity.
Qed.

Lemma send_writes_command_line_witness :
  written_to (fst (sendIRCommand "NEC" 32 "0x1" transmitter_connected)) 0
    = ["NEC,32,0x1" +:+ String "010"%char ""] /\
  written_to (fst (sendIRCommand "SONY" 12 "0xa90" transmitter_connected)) 0
    = ["SONY,12,0xa90" +:+ String "010"%char ""] /\
  JS.decimal_value "12" = Some 12%Z.
Proof.
  assert (H32 : JS.safe_integer 32) by (unfold JS.safe_integer; lia).
  assert (H12 : JS.safe_integer 12) by (unfold JS.safe_integer; lia).
  destruct (send_writes_command_line "NEC" 32 "0x1" transmitter_connected 0
              H32 eq_refl eq_refl) as (_ & W32 & _).
  destruct (send_writes_command_line "SONY" 12 "0xa90" transmitter_connected 0
              H12 eq_refl eq_refl) as (_ & W12 & V12 & _).
  split; [exact W32 | split; [exact W12 | exact V12]].
Defined.

End Transmit.

(** ** Connecting and disconnecting *)

Section Connect.

Lemma set_status_lookup (p q : nat) (st : port_status) (s : state) :
  ports (set_status p st s) !! q
  = if Nat.eqb p q then with_status st <$> ports s !! q else ports s !! q.
Proof.
  unfold set_status. destruct (ports s !! p) as [sp|] eqn:Hp; simpl.
  - destruct (Nat.eqb_spec p q) as [<-|Hne].
    + rewrite list_lookup_insert_eq by (eapply lookup_lt_Some; eauto).
      now rewrite Hp.
    + now rewrite list_lookup_insert_ne.
  - destruct (Nat.eqb_spec p q) as [<-|Hne]; [now rewrite Hp | reflexivity].
Qed.

Lemma set_status_length (p : nat) (st : port_status) (s : state) :
  length (ports (set_status p st s)) = length (ports s).
Proof.
  unfold set_status. destruct (ports s !! p); [|reflexivity].
  simpl. apply length_insert.
Qed.

Lemma set_status_handle (p : nat) (st : port_status) (s : state) (r : role) :
  handle r (set_status p st s) = handle r s.
Proof. unfold set_status. destruct (ports s !! p); destruct r; reflexivity. Qed.

Lemma close_existing_handle (r r' : role) (s : state) :
  handle r' (close_existing r s) = handle r' s.
Proof.
  unfold close_existing. destruct (handle r s) as [p|]; [|reflexivity].
  destruct (isOpen s p); [apply set_status_handle | reflexivity].
Qed.

Lemma close_existing_length (r : role) (s : state) :
  length (ports (close_existing r s)) = length (ports s).
Proof.
  unfold close_existing. destruct (handle r s) as [p|]; [|reflexivity].
  destruct (isOpen s p); [apply set_status_length | reflexivity].
Qed.

(** After "close existing connection if any" a port is open exactly if
    it was open and is not the one the variable held. *)
Lemma close_existing_lookup (r : role) (s : state) (q : nat) :
  ports (close_existing r s) !! q
  = if bool_decide (handle r s = Some q) && isOpen s q
    then with_status Closed <$> ports s !! q
    else ports s !! q.
Proof.
  unfold close_existing. destruct (handle r s) as [p|] eqn:Hh; [|reflexivity].
  destruct (isOpen s p) eqn:Ho.
  - unfold close. rewrite set_status_lookup.
    destruct (Nat.eqb_spec p q) as [<-|Hne].
    + now rewrite bool_decide_eq_true_2, Ho.
    + rewrite bool_decide_eq_false_2 by congruence. reflexivity.
  - case_bool_decide as Hd; [|reflexivity].
    injection Hd as <-. now rewrite Ho.
Qed.

Lemma close_existing_not_open (r : role) (s : state) (p : nat) :
  handle r s = Some p -> isOpen (close_existing r s) p = false.
Proof.
  intros Hh. unfold isOpen at 1. rewrite close_existing_lookup.
  rewrite bool_decide_eq_true_2 by exact Hh.
  destruct (isOpen s p) eqn:Ho; simpl.
  - destruct (ports s !! p); reflexivity.
  - exact Ho.
Qed.

Lemma close_existing_open_ports (r : role) (s : state) :
  single r s -> forall q sp,
    ports (close_existing r s) !! q = Some sp -> sp_role sp = r ->
    sp_status sp <> Open.
Proof.
  intros Hs q sp Hq Hr Ho. rewrite close_existing_lookup in Hq.
  destruct (bool_decide (handle r s = Some q) && isOpen s q) eqn:Hc.
  - destruct (ports s !! q) as [sp0|]; [|discriminate].
    simpl in Hq. injection Hq as <-. discriminate.
  - pose proof (Hs q sp Hq Hr Ho) as Hh.
    rewrite bool_decide_eq_true_2 in Hc by exact Hh.
    unfold isOpen in Hc. rewrite Hq, Ho in Hc. discriminate.
Qed.

Lemma open_ports_nil (r : role) (s : state) :
  (forall q sp, ports s !! q = Some sp -> sp_role sp = r -> sp_status sp <> Open) ->
  open_ports r s = [].
Proof.
  intros H. unfold open_ports. apply filter_nil_iff, List.Forall_forall.
  intros q _. destruct (ports s !! q) as [sp|] eqn:Hq; [|reflexivity].
  destruct (role_eqb (sp_role sp) r) eqn:Hr; [|reflexivity].
  assert (sp_role sp = r) as Hr'
    by (revert Hr; destruct (sp_role sp), r; simpl; congruence).
  specialize (H q sp Hq Hr'). now destruct (sp_status sp).
Qed.

Lemma set_handle_ports (r : role) (v : option nat) (s : state) :
  ports (set_handle r v s) = ports s.
Proof. now destruct r. Qed.

Lemma set_handle_same (r : role) (v : option nat) (s : state) :
  handle r (set_handle r v s) = v.
Proof. now destruct r. Qed.

Lemma set_handle_other (r r' : role) (v : option nat) (s : state) :
  r <> r' -> handle r' (set_handle r v s) = handle r' s.
Proof. destruct r, r'; congruence || reflexivity. Qed.

Lemma open_ports_ext (r : role) (s s' : state) :
  ports s' = ports s -> open_ports r s' = open_ports r s.
Proof. unfold open_ports. now intros ->. Qed.

(** X20. A disconnect request in any state. A connect call with an empty or
    absent path closes the port the role's variable holds, if it is
    open, clears the variable, creates no port, and resolves with
    success and [disconnected: true], so not connected and not an
    error. The other role is left alone; and if the variable held
    every open port of the role, none of the role's ports is open
    afterwards. *)
Theorem disconnect_request_clears_role
    (r : role) (portPath : option string) (s : state) :
  JS.truthy portPath = false ->
  snd (connect_call r portPath s)
    = Settled (Fulfilled {| success := true; disconnected := true |}) /\
  handle r (fst (connect_call r portPath s)) = None /\
  (forall p, handle r s = Some p -> isOpen (fst (connect_call r portPath s)) p = false) /\
  length (ports (fst (connect_call r portPath s))) = length (ports s) /\
  (forall r', r' <> r ->
     handle r' (fst (connect_call r portPath s)) = handle r' s) /\
  (single r s -> open_ports r (fst (connect_call r portPath s)) = []).
Proof.
  intros Hp. unfold connect_call. rewrite Hp. simpl.
  split; [reflexivity|]. split; [apply set_handle_same|].
  split; [|split; [|split]].
  - intros p Hh. unfold isOpen. rewrite set_handle_ports.
    now apply close_existing_not_open.
  - rewrite set_handle_ports. apply close_existing_length.
  - intros r' Hne. rewrite set_handle_other by congruence.
    apply close_existing_handle.
  - intros Hs. rewrite (open_ports_ext r (close_existing r s)) by apply set_handle_ports.
    apply open_ports_nil. now apply close_existing_open_ports.
Qed.

Lemma disconnect_request_clears_role_witness :
  snd (connect_call Receiver (Some "") receiver_connected)
    = Settled (Fulfilled {| success := true; disconnected := true |}) /\
  handle Receiver (fst (connect_call Receiver (Some "") receiver_connected)) = None.
Proof.
  pose proof (disconnect_request_clears_role Receiver (Some "") receiver_connected
                eq_refl) as (H1 & H2 & _).
  split; [exact H1 | exact H2].
Defined.

Example disconnect_ex :
  open_ports Receiver receiver_connected = [0] /\
  open_ports Receiver (fst (connectToReceiver None receiver_connected)) = [] /\
  receiverPort (fst (connectToReceiver None receiver_connected)) = None.
Proof. repeat split. Qed.


(** *** Awaited connects keep one connection per role *)

Lemma lookup_snoc {A} (l : list A) (x : A) (q : nat) :
  (l ++ [x]) !! q = if Nat.eqb (length l) q then Some x else l !! q.
Proof.
  destruct (Nat.eqb_spec (length l) q) as [<-|Hne].
  - rewrite lookup_app_r by reflexivity. now rewrite Nat.sub_diag.
  - destruct (Nat.lt_ge_cases q (length l)) as [Hlt|Hge].
    + now rewrite lookup_app_l.
    + rewrite (lookup_ge_None_2 l q) by exact Hge.
      apply lookup_ge_None_2. rewrite length_app. simpl. lia.
Qed.

Lemma close_existing_cases (r : role) (s : state) (q : nat) (sp : serial_port) :
  ports (close_existing r s) !! q = Some sp ->
  sp_status sp = Closed \/ ports s !! q = Some sp.
Proof.
  rewrite close_existing_lookup.
  destruct (bool_decide (handle r s = Some q) && isOpen s q); [|now right].
  destruct (ports s !! q); [|discriminate]. simpl. intros [= <-]. now left.
Qed.

Lemma single_length (r : role) (s : state) :
  single r s -> length (open_ports r s) <= 1.
Proof.
  intros Hs.
  assert (Hall : forall q, In q (open_ports r s) -> handle r s = Some q).
  { intros q Hq. unfold open_ports in Hq. apply filter_In in Hq as [_ Hq].
    destruct (ports s !! q) as [sp|] eqn:Hl; [|discriminate].
    apply andb_true_iff in Hq as [Hr Ho]. apply (Hs q sp Hl).
    - revert Hr. destruct (sp_role sp), r; simpl; congruence.
    - now destruct (sp_status sp). }
  assert (Hnd : List.NoDup (open_ports r s)).
  { unfold open_ports. apply List.NoDup_filter, List.seq_NoDup. }
  destruct (open_ports r s) as [|a [|b l]]; simpl; try lia.
  exfalso. inversion Hnd as [|? ? Hna _]; subst. apply Hna. left.
  pose proof (Hall a (or_introl eq_refl)) as Ha.
  pose proof (Hall b (or_intror (or_introl eq_refl))) as Hb. congruence.
Qed.

(** The state right after a connect call with a path: the old port is
    closed and the new one is not open yet. *)
Lemma connect_call_closes_first
    (r : role) (portPath : option string) (s : state) :
  single r s -> open_ports r (fst (connect_call r portPath s)) = [].
Proof.
  intros Hs. unfold connect_call. destruct (JS.truthy portPath); simpl.
  - apply open_ports_nil. intros q sp Hq Hr. simpl in Hq.
    rewrite lookup_snoc in Hq.
    destruct (Nat.eqb (length (ports (close_existing r s))) q).
    + injection Hq as <-. discriminate.
    + now apply (close_existing_open_ports r s Hs q sp).
  - rewrite (open_ports_ext r (close_existing r s)) by apply set_handle_ports.
    apply open_ports_nil. now apply close_existing_open_ports.
Qed.

Lemma on_open_error_ports (p : nat) (message : string) (s : state) :
  ports (fst (on_open_error p message s)) = ports (set_status p Closed s).
Proof.
  unfold on_open_error, set_status. now destruct (ports s !! p).
Qed.

Lemma on_open_error_handle (p : nat) (message : string) (s : state) (r : role) :
  handle r (fst (on_open_error p message s)) = handle r s.
Proof.
  unfold on_open_error, set_status. destruct (ports s !! p); now destruct r.
Qed.

Lemma on_open_ports (p : nat) (s : state) :
  ports (fst (on_open p s)) = ports (set_status p Open s).
Proof.
  unfold on_open, set_status. destruct (ports s !! p) as [sp|]; [|reflexivity].
  simpl. now rewrite set_handle_ports.
Qed.

Lemma on_open_handle (p : nat) (s : state) (sp : serial_port) (r : role) :
  ports s !! p = Some sp ->
  handle r (fst (on_open p s))
  = if role_eqb (sp_role sp) r then Some p else handle r s.
Proof.
  intros Hp. unfold on_open, set_status. rewrite Hp. simpl.
  destruct (sp_role sp), r; reflexivity.
Qed.

(** The ports after the new port of a connect call has settled. *)
Lemma settled_port_cases
    (r : role) (s : state) (new : serial_port) (st : port_status)
    (q : nat) (sp : serial_port) :
  let s1 := close_existing r s in
  ports (set_status (length (ports s1)) st (set_ports (ports s1 ++ [new]) s1)) !! q
    = Some sp ->
  (q = length (ports s1) /\ sp = with_status st new) \/
  (q <> length (ports s1) /\ ports s1 !! q = Some sp).
Proof.
  intros s1. rewrite set_status_lookup. simpl. rewrite lookup_snoc.
  destruct (Nat.eqb_spec (length (ports s1)) q) as [<-|Hne].
  - simpl. intros [= <-]. now left.
  - intros Hq. right. split; [congruence | exact Hq].
Qed.

(** A connect call awaited to its end keeps [one_connection]. *)
Lemma await_connect_one_connection
    (device : string -> option string) (r : role) (portPath : option string)
    (s : state) :
  one_connection s -> one_connection (fst (await_connect device r portPath s)).
Proof.
  intros Hinv r'.
  assert (Hkept : forall q sp, ports (close_existing r s) !! q = Some sp ->
            sp_role sp = r' -> sp_status sp = Open ->
            r <> r' /\ handle r' s = Some q).
  { intros q sp Hq Hr Ho. destruct (decide (r = r')) as [<-|Hrr].
    - exfalso. exact (close_existing_open_ports r s (proj1 (Hinv r)) q sp Hq Hr Ho).
    - split; [exact Hrr|].
      apply close_existing_cases in Hq as [Hc|Hq]; [congruence|].
      exact (proj1 (Hinv r') q sp Hq Hr Ho). }
  assert (Hquiet : forall q sp, ports (close_existing r s) !! q = Some sp ->
            sp_role sp = r' -> sp_status sp <> Opening).
  { intros q sp Hq Hr. apply close_existing_cases in Hq as [Hc|Hq]; [congruence|].
    exact (proj2 (Hinv r') q sp Hq Hr). }
  unfold await_connect, connect_call.
  destruct (JS.truthy portPath) eqn:Ht; simpl.
  - set (s1 := close_existing r s) in *.
    set (new := {| sp_role := r; sp_path := default "" portPath; sp_baudRate := 9600;
                   sp_status := Opening; sp_written := [] |}).
    set (s2 := set_ports (ports s1 ++ [new]) s1).
    assert (Hnew : ports s2 !! length (ports s1) = Some new).
    { simpl. now rewrite lookup_snoc, Nat.eqb_refl. }
    destruct (device (default "" portPath)) as [message|]; split.
    + intros q sp Hq Hr Ho. rewrite on_open_error_ports in Hq.
      rewrite on_open_error_handle.
      apply settled_port_cases in Hq as [[-> ->]|[_ Hq]]; [discriminate|].
      destruct (Hkept q sp Hq Hr Ho) as [_ Hh].
      change (handle r' s2) with (handle r' s1).
      unfold s1. now rewrite close_existing_handle.
    + intros q sp Hq Hr. rewrite on_open_error_ports in Hq.
      apply settled_port_cases in Hq as [[-> ->]|[_ Hq]]; [discriminate|].
      exact (Hquiet q sp Hq Hr).
    + intros q sp Hq Hr Ho. rewrite on_open_ports in Hq.
      rewrite (on_open_handle _ _ new) by exact Hnew.
      apply settled_port_cases in Hq as [[-> ->]|[_ Hq]].
      * simpl in Hr. subst r'. simpl. now destruct r.
      * destruct (Hkept q sp Hq Hr Ho) as [Hrr Hh]. simpl.
        replace (role_eqb r r') with false by (destruct r, r'; simpl; congruence).
        change (handle r' s2) with (handle r' s1).
        unfold s1. now rewrite close_existing_handle.
    + intros q sp Hq Hr. rewrite on_open_ports in Hq.
      apply settled_port_cases in Hq as [[-> ->]|[_ Hq]]; [discriminate|].
      exact (Hquiet q sp Hq Hr).
  - split.
    + intros q sp Hq Hr Ho. rewrite set_handle_ports in Hq.
      destruct (Hkept q sp Hq Hr Ho) as [Hrr Hh].
      rewrite set_handle_other by exact Hrr. now rewrite close_existing_handle.
    + intros q sp Hq Hr. rewrite set_handle_ports in Hq.
      exact (Hquiet q sp Hq Hr).
Qed.

Lemma init_one_connection : one_connection init.
Proof. intros r. split; intros p sp Hp; discriminate. Qed.

(** X19. Connect calls made one after the other, each awaited to its
    end, leave at most one open port per role after every call, and
    none between a call and the opening of its port. *)
Lemma awaited_connects_keep_one_port
    (device : string -> option string)
    (calls : list (role * option string)) (s : state) :
  one_connection s ->
  let s' := fold_left (fun st c => fst (await_connect device (fst c) (snd c) st)) calls s in
  one_connection s' /\
  forall r, length (open_ports r s') <= 1 /\
    forall portPath, open_ports r (fst (connect_call r portPath s')) = [].
Proof.
  revert s. induction calls as [|[r0 path0] calls IH]; intros s Hinv; simpl.
  - split; [exact Hinv|]. intros r. split.
    + apply single_length, Hinv.
    + intros portPath. apply connect_call_closes_first, Hinv.
  - apply IH. now apply await_connect_one_connection.
Qed.

(** C2, on the code. Two connect calls for the receiver, the second
    made while the port of the first is still opening, find nothing to
    close; both ports then open, [receiverPort] holds the second only,
    and the first stays open and unreferenced. *)
Theorem overlapping_connects_leak_a_port :
  run overlapping_connects init = Some both_open /\
  open_ports Receiver both_open = [0; 1] /\
  receiverPort both_open = Some 1 /\
  length (open_ports Receiver both_open) = 2.
Proof. vm_compute. repeat split. Qed.

(** C6, on the code. A disconnect request reaches the port stored in
    the role's variable only. With a second open port of the role it
    resolves as a disconnect and clears the variable, yet that port
    stays open and goes on delivering lines; and made while a port is
    still opening, it does not stop the opening: the port opens
    afterwards and the role is connected again. *)
Theorem disconnect_misses_unstored_ports :
  snd (connectToReceiver None both_open)
    = Settled (Fulfilled {| success := true; disconnected := true |}) /\
  receiverPort (fst (connectToReceiver None both_open)) = None /\
  open_ports Receiver (fst (connectToReceiver None both_open)) = [0] /\
  enabled (Data 0 "1:02:03 PM" "Decoded NEC 32 0x1")
    (fst (connectToReceiver None both_open)) = true /\
  run disconnect_in_flight init = Some opened_after_disconnect /\
  receiverPort opened_after_disconnect = Some 0 /\
  open_ports Receiver opened_after_disconnect = [0].
Proof. vm_compute. repeat split. Qed.

Example awaited_connects_ex :
  open_ports Receiver
    (fst (await_connect (fun _ => None) Receiver (Some "/dev/ttyUSB1")
            (fst (await_connect (fun _ => None) Receiver (Some "/dev/ttyUSB0") init))))
  = [1].
Proof. reflexivity. Qed.

End Connect.

(** ** Start-up *)

Section Startup.






Example startup_without_device :
  let s := server_listen no_device
             (Some {| cfg_receiverPort := Some "/dev/ttyUSB0";
                      cfg_transmitterPort := None |}) init in
  listening s = true /\
  receiverPort s = None /\ transmitterPort s = None /\
  status_of s 0 = Some Closed /\
  open_ports Receiver s = [] /\ open_ports Transmitter s = [] /\
  console s
  = [ Banner;
      ReconnectAttempt Receiver "/dev/ttyUSB0";
      ReceiverPortError "Error: No such file or directory, cannot open /dev/ttyUSB0";
      ReconnectFailed Receiver "Error: No such file or directory, cannot open /dev/ttyUSB0" ].
Proof. vm_compute. repeat split. Qed.

End Startup.

(** ** The button store *)

Section Buttons.

Lemma lookup_set_same (key : string) (v : json) (fields : list (string * json)) :
  lookup_field key (set_field key v fields) = Some v.
Proof.
  induction fields as [|[k v0] fields IH]; simpl.
  - now rewrite String.eqb_refl.
  - destruct (String.eqb k key) eqn:E; simpl; rewrite E; [reflexivity | exact IH].
Qed.

Lemma lookup_set_other (key key' : string) (v : json) (fields : list (string * json)) :
  key' <> key ->
  lookup_field key' (set_field key v fields) = lookup_field key' fields.
Proof.
  intros Hne. induction fields as [|[k v0] fields IH]; simpl.
  - apply String.eqb_neq in Hne. rewrite String.eqb_sym. now rewrite Hne.
  - destruct (String.eqb k key) eqn:E; simpl.
    + apply String.eqb_eq in E as ->.
      assert (E' : String.eqb key key' = false)
        by (apply String.eqb_neq; congruence).
      now rewrite E'.
    + now rewrite IH.
Qed.

(** Loading the buttons changes no file and no connection. *)
Lemma loadButtons_file (sv : server) :
  buttonsFile (fst (loadButtons sv)) = buttonsFile sv /\
  session (fst (loadButtons sv)) = session sv /\
  configFile (fst (loadButtons sv)) = configFile sv.
Proof.
  unfold loadButtons. destruct (buttonsFile sv) eqn:E; repeat split; simpl; congruence.
Qed.

(** [b] stays when the buttons with id [id] are deleted. *)
Lemma id_differs_button_id (id : string) (b : json) :
  b <> JNull ->
  id_differs (Some id) b = Some (negb (bool_decide (button_id b = Some id))).
Proof.
  intros Hb. destruct b as [|x|n|s|items|fields]; try reflexivity; [congruence|].
  simpl. destruct (lookup_field "id" fields) as [[|x|n|s|items|fs]|]; try reflexivity.
  destruct (String.eqb_spec s id) as [->|Hne].
  - now rewrite bool_decide_eq_true_2.
  - rewrite bool_decide_eq_false_2 by congruence. reflexivity.
Qed.

Lemma filter_id_no_null (id : string) (items : list json) :
  Forall (fun b => b <> JNull) items ->
  filter_id (Some id) items = Some (without_id id items).
Proof.
  induction 1 as [|b items Hb _ IH]; [reflexivity|]. simpl.
  rewrite (id_differs_button_id id b Hb), IH. reflexivity.
Qed.

Lemma filter_id_null (id : option string) (items : list json) :
  In JNull items -> filter_id id items = None.
Proof.
  induction items as [|b items IH]; [intros []|]. intros [->|Hin]; simpl.
  - reflexivity.
  - destruct (id_differs id b); [|reflexivity]. now rewrite (IH Hin).
Qed.

Lemma split_on_cons (sep : ascii) (s : string) :
  exists seg segs, split_on sep s = seg :: segs.
Proof.
  induction s as [|c s (seg & segs & IH)]; simpl; [now eexists _, _|].
  destruct (Ascii.eqb c sep); [now eexists _, _|].
  rewrite IH. now eexists _, _.
Qed.

(** A string without the separator is its own only segment. *)
Lemma split_on_plain (sep : ascii) (s : string) :
  ~ In sep (list_ascii_of_string s) -> split_on sep s = [s].
Proof.
  induction s as [|c s IH]; intros Hn; [reflexivity|]. simpl in *.
  destruct (Ascii.eqb_spec c sep) as [->|Hne]; [tauto|].
  rewrite IH by tauto. reflexivity.
Qed.

Lemma path_id_of_buttons (rest : string) :
  path_id ("/api/buttons/" +:+ rest) = hd_error (split_on "/" rest).
Proof.
  unfold path_id.
  change ("/api/buttons/" +:+ rest)
    with (String "/" (String "a" (String "p" (String "i" (String "/"
            (String "b" (String "u" (String "t" (String "t" (String "o"
            (String "n" (String "s" (String "/" rest))))))))))))).
  destruct (split_on_cons "/" rest) as (seg & segs & E).
  simpl. rewrite E. reflexivity.
Qed.

Lemma string_of_uint_digits (d : Decimal.uint) :
  ~ In "/"%char (list_ascii_of_string (NilEmpty.string_of_uint d)).
Proof.
  induction d; simpl; [tauto|..]; intros [H|H]; try discriminate; tauto.
Qed.

Lemma number_toString_no_slash (n : Z) :
  ~ In "/"%char (list_ascii_of_string (JS.number_toString n)).
Proof.
  unfold JS.number_toString. destruct (Z.to_int n) as [d|d]; simpl.
  - apply string_of_uint_digits.
  - intros [H|H]; [discriminate | now apply (string_of_uint_digits d)].
Qed.

Lemma post_result (sv : server) (newButton created : json) (now : Z)
    (out : write_outcome (file_content json)) (items : list json) :
  stored sv = Some items ->
  assign_id (JS.number_toString now) newButton = Some created ->
  api_buttons_post (Some newButton) now out sv
  = (saveButtons out (JArr (items ++ [created])) (fst (loadButtons sv)),
     Ok200 (JArr (items ++ [created]))).
Proof.
  intros Hst Ha. unfold api_buttons_post, loadButtons. rewrite Ha.
  store_cases Hst; reflexivity.
Qed.

Lemma saveButtons_file (out : write_outcome (file_content json)) (buttons : json)
    (sv : server) :
  buttonsFile (saveButtons out buttons sv) = after_write out buttons /\
  session (saveButtons out buttons sv) = session sv /\
  configFile (saveButtons out buttons sv) = configFile sv.
Proof. now destruct out. Qed.

(** X1. A POST with an object or an array as body, on a store that
    holds an array (or nothing), answers 200 with the stored buttons
    followed by the new one, and writes that list; when the write
    fails the answer is the same, the error is only logged, and the
    file is what the failed write left. Connections and configuration
    are not touched. *)
Theorem post_appends_button (sv : server) (newButton created : json) (now : Z)
    (out : write_outcome (file_content json)) (items : list json) :
  stored sv = Some items ->
  assign_id (JS.number_toString now) newButton = Some created ->
  snd (api_buttons_post (Some newButton) now out sv)
    = Ok200 (JArr (items ++ [created])) /\
  buttonsFile (fst (api_buttons_post (Some newButton) now out sv))
    = after_write out (JArr (items ++ [created])) /\
  (forall message remains, out = WriteFailed message remains ->
     In (ErrorSavingButtons message)
        (errors (fst (api_buttons_post (Some newButton) now out sv)))) /\
  session (fst (api_buttons_post (Some newButton) now out sv)) = session sv /\
  configFile (fst (api_buttons_post (Some newButton) now out sv)) = configFile sv.
Proof.
  intros Hst Ha. rewrite (post_result sv newButton created now out items Hst Ha).
  simpl. destruct (saveButtons_file out (JArr (items ++ [created])) (fst (loadButtons sv)))
    as (H1 & H2 & H3).
  destruct (loadButtons_file sv) as (_ & H4 & H5).
  split; [reflexivity|]. split; [exact H1|]. split.
  - intros message remains ->. simpl. apply in_or_app. right. now left.
  - split; congruence.
Qed.

Lemma post_appends_button_witness :
  snd (api_buttons_post (Some (JObj [("name", JStr "Power")])) 1700000000000 Written fresh)
  = Ok200 (JArr [JObj [("name", JStr "Power"); ("id", JStr "1700000000000")]]).
Proof.
  pose proof (post_appends_button fresh (JObj [("name", JStr "Power")])
                (JObj [("name", JStr "Power"); ("id", JStr "1700000000000")])
                1700000000000 Written [] eq_refl eq_refl) as (H & _).
  exact H.
Defined.

(** X2. The id of a new button is the time of the request in decimal,
    whatever id the body carried; the other fields of the body are
    kept; and the id is the one a DELETE for [/api/buttons/<id>] reads
    from its path. *)
Theorem created_button_gets_time_as_id (fields : list (string * json)) (now : Z) :
  exists fields',
    assign_id (JS.number_toString now) (JObj fields) = Some (JObj fields') /\
    button_id (JObj fields') = Some (JS.number_toString now) /\
    (forall key, key <> "id" -> lookup_field key fields' = lookup_field key fields) /\
    path_id ("/api/buttons/" +:+ JS.number_toString now)
      = button_id (JObj fields').
Proof.
  exists (set_field "id" (JStr (JS.number_toString now)) fields).
  assert (Hid : button_id (JObj (set_field "id" (JStr (JS.number_toString now)) fields))
                = Some (JS.number_toString now)).
  { simpl. now rewrite lookup_set_same. }
  split; [reflexivity|]. split; [exact Hid|]. split.
  - intros key Hne. now apply lookup_set_other.
  - rewrite Hid, path_id_of_buttons.
    rewrite split_on_plain by apply number_toString_no_slash. reflexivity.
Qed.

(** X3. A POST whose body does not parse, or is [null], a number, a
    string or a boolean, or that finds a file holding something other
    than an array, answers 500 and leaves the button file as it was. *)
Theorem post_rejects_without_writing (sv : server) (body : option json) (now : Z)
    (out : write_outcome (file_content json)) :
  (body = None \/
   (exists b, body = Some b /\ is_container b = false) \/
   stored sv = None) ->
  (exists cause, snd (api_buttons_post body now out sv) = Error500 cause) /\
  buttonsFile (fst (api_buttons_post body now out sv)) = buttonsFile sv.
Proof.
  intros H. unfold api_buttons_post.
  destruct body as [b|]; [|split; [now eexists | reflexivity]].
  pose proof (loadButtons_file sv) as (Hf & _).
  destruct (loadButtons sv) as [sv1 buttons] eqn:El. simpl in Hf.
  destruct (assign_id (JS.number_toString now) b) as [created|] eqn:Ea;
    [|split; [now eexists | exact Hf]].
  destruct H as [H|[(b' & [= <-] & Hc)|H]]; [discriminate| |].
  - destruct b; discriminate.
  - unfold stored in H. unfold loadButtons in El.
    destruct (buttonsFile sv) as [|m|[| | | |its|]]; try discriminate H;
      injection El as <- <-; (split; [now eexists | exact Hf]).
Qed.

Lemma post_rejects_without_writing_witness :
  (exists cause, snd (api_buttons_post (Some JNull) 5 Written fresh) = Error500 cause) /\
  buttonsFile (fst (api_buttons_post (Some JNull) 5 Written fresh)) = buttonsFile fresh.
Proof.
  apply (post_rejects_without_writing fresh (Some JNull) 5 Written).
  right. left. exists JNull. split; reflexivity.
Defined.

Lemma delete_result (sv : server) (pathname id : string)
    (out : write_outcome (file_content json)) (items : list json) :
  stored sv = Some items ->
  Forall (fun b => b <> JNull) items ->
  path_id pathname = Some id ->
  api_buttons_delete pathname out sv
  = (saveButtons out (JArr (without_id id items)) (fst (loadButtons sv)),
     Ok200 (JArr (without_id id items))).
Proof.
  intros Hst Hnn Hp. unfold api_buttons_delete, loadButtons. rewrite Hp.
  store_cases Hst; try reflexivity.
  now rewrite (filter_id_no_null id items Hnn).
Qed.

Lemma without_id_no_null (id : string) (items : list json) :
  Forall (fun b => b <> JNull) items ->
  Forall (fun b => b <> JNull) (without_id id items).
Proof.
  intros H. apply List.Forall_forall. intros b Hb.
  apply filter_In in Hb as [Hb _]. rewrite List.Forall_forall in H. now apply H.
Qed.

Lemma without_id_twice (id : string) (items : list json) :
  without_id id (without_id id items) = without_id id items.
Proof.
  unfold without_id. induction items as [|b items IH]; [reflexivity|]. simpl.
  destruct (negb (bool_decide (button_id b = Some id))) eqn:E; simpl.
  - now rewrite E, IH.
  - exact IH.
Qed.

(** X4. On a store without [null] entries, a DELETE answers 200 with
    the stored buttons whose id is not the id in the path, in their
    order, and writes that list: a button is removed exactly when its
    [id] field is that string, so a button without such a field always
    stays; deleting again changes nothing more. *)
Theorem delete_removes_exactly_the_id (sv : server) (pathname id : string)
    (out : write_outcome (file_content json)) (items : list json) :
  stored sv = Some items ->
  Forall (fun b => b <> JNull) items ->
  path_id pathname = Some id ->
  snd (api_buttons_delete pathname out sv) = Ok200 (JArr (without_id id items)) /\
  buttonsFile (fst (api_buttons_delete pathname out sv))
    = after_write out (JArr (without_id id items)) /\
  (forall b, In b (without_id id items) <-> In b items /\ button_id b <> Some id) /\
  sublist (without_id id items) items /\
  snd (api_buttons_delete pathname Written
         (fst (api_buttons_delete pathname Written sv)))
    = Ok200 (JArr (without_id id items)).
Proof.
  intros Hst Hnn Hp.
  rewrite (delete_result sv pathname id out items Hst Hnn Hp). simpl.
  split; [reflexivity|]. split; [apply saveButtons_file|]. split; [|split].
  - intros b. unfold without_id. rewrite filter_In, negb_true_iff, bool_decide_eq_false.
    reflexivity.
  - apply filter_sublist.
  - rewrite (delete_result sv pathname id Written items Hst Hnn Hp). simpl.
    rewrite (delete_result _ pathname id Written (without_id id items)).
    + simpl. now rewrite without_id_twice.
    + reflexivity.
    + now apply without_id_no_null.
    + exact Hp.
Qed.

Lemma delete_removes_exactly_the_id_witness :
  snd (api_buttons_delete "/api/buttons/17" Written
         (set_buttonsFile
            (Parsed (JArr [ JObj [("name", JStr "Power"); ("id", JStr "17")];
                            JObj [("name", JStr "Mute"); ("id", JStr "18")] ])) fresh))
  = Ok200 (JArr [ JObj [("name", JStr "Mute"); ("id", JStr "18")] ]).
Proof.
  pose proof (delete_removes_exactly_the_id
                (set_buttonsFile
                   (Parsed (JArr [ JObj [("name", JStr "Power"); ("id", JStr "17")];
                                   JObj [("name", JStr "Mute"); ("id", JStr "18")] ])) fresh)
                "/api/buttons/17" "17" Written
                [ JObj [("name", JStr "Power"); ("id", JStr "17")];
                  JObj [("name", JStr "Mute"); ("id", JStr "18")] ]
                eq_refl) as H.
  destruct H as (H & _).
  - repeat constructor; discriminate.
  - reflexivity.
  - exact H.
Defined.

Lemma without_id_unused (id : string) (items : list json) :
  Forall (fun b => button_id b <> Some id) items -> without_id id items = items.
Proof.
  induction 1 as [|b items Hb _ IH]; [reflexivity|]. unfold without_id in *. simpl.
  rewrite bool_decide_eq_false_2 by exact Hb. simpl. now rewrite IH.
Qed.

Lemma without_id_app (id : string) (l1 l2 : list json) :
  without_id id (l1 ++ l2) = without_id id l1 ++ without_id id l2.
Proof. apply List.filter_app. Qed.

Lemma created_id (fields : list (string * json)) (id : string) :
  button_id (JObj (set_field "id" (JStr id) fields)) = Some id.
Proof. simpl. now rewrite lookup_set_same. Qed.

Lemma without_id_created (fields : list (string * json)) (id : string) :
  without_id id [JObj (set_field "id" (JStr id) fields)] = [].
Proof.
  unfold without_id. cbn [List.filter].
  now rewrite bool_decide_eq_true_2 by apply created_id.
Qed.

Lemma path_id_created (now : Z) :
  path_id ("/api/buttons/" +:+ JS.number_toString now) = Some (JS.number_toString now).
Proof.
  rewrite path_id_of_buttons.
  now rewrite split_on_plain by apply number_toString_no_slash.
Qed.

Lemma stored_after_save (buttons : list json) (sv : server) :
  stored (saveButtons Written (JArr buttons) sv) = Some buttons.
Proof. reflexivity. Qed.

(** X5. Creating a button and then deleting it by the id it was
    given, both writes going through, leaves in the button file the
    array of the buttons stored before, which is the empty array when
    there was no readable file before; so the stored buttons are as
    they were. This needs that no stored entry is null and that no
    stored button had that id already; the time is a safe integer, as
    the clock's is. *)
Theorem post_then_delete_restores (sv : server) (fields : list (string * json))
    (now : Z) (items : list json) :
  JS.safe_integer now ->
  stored sv = Some items ->
  Forall (fun b => b <> JNull) items ->
  Forall (fun b => button_id b <> Some (JS.number_toString now)) items ->
  buttonsFile
    (fst (api_buttons_delete ("/api/buttons/" +:+ JS.number_toString now) Written
            (fst (api_buttons_post (Some (JObj fields)) now Written sv))))
  = Parsed (JArr items) /\
  stored
    (fst (api_buttons_delete ("/api/buttons/" +:+ JS.number_toString now) Written
            (fst (api_buttons_post (Some (JObj fields)) now Written sv))))
  = stored sv.
Proof.
  intros _ Hst Hnn Hfree.
  assert (E : buttonsFile
    (fst (api_buttons_delete ("/api/buttons/" +:+ JS.number_toString now) Written
            (fst (api_buttons_post (Some (JObj fields)) now Written sv))))
    = Parsed (JArr items)).
  { rewrite (post_result sv (JObj fields) _ now Written items Hst eq_refl). simpl.
    rewrite (delete_result _ _ (JS.number_toString now) Written
               (items ++ [JObj (set_field "id" (JStr (JS.number_toString now)) fields)])).
    - simpl. rewrite without_id_app, without_id_created, app_nil_r.
      now rewrite without_id_unused.
    - apply stored_after_save.
    - apply Forall_app. split; [exact Hnn | repeat constructor; discriminate].
    - apply path_id_created. }
  split; [exact E|]. rewrite Hst. unfold stored. now rewrite E.
Qed.

Lemma post_then_delete_restores_witness :
  buttonsFile
    (fst (api_buttons_delete ("/api/buttons/" +:+ JS.number_toString 17) Written
            (fst (api_buttons_post (Some (JObj [("name", JStr "Power")])) 17 Written
                    (set_buttonsFile (Parsed (JArr [JObj [("id", JStr "16")]])) fresh)))))
  = Parsed (JArr [JObj [("id", JStr "16")]]).
Proof.
  apply (post_then_delete_restores
           (set_buttonsFile (Parsed (JArr [JObj [("id", JStr "16")]])) fresh)
           [("name", JStr "Power")] 17 [JObj [("id", JStr "16")]]).
  - unfold JS.safe_integer. lia.
  - reflexivity.
  - repeat constructor; discriminate.
  - repeat constructor; simpl; discriminate.
Defined.

Example post_then_delete_without_file :
  buttonsFile
    (fst (api_buttons_delete ("/api/buttons/" +:+ JS.number_toString 17) Written
            (fst (api_buttons_post (Some (JObj [("name", JStr "Power")])) 17 Written
                    fresh))))
  = Parsed (JArr []).
Proof. reflexivity. Qed.

(** X6. Ids are not unique: two buttons created in the same
    millisecond get the same id, and one DELETE for that id removes
    them both (with every stored button of that id). This is for a
    store with no null entry, for writes that go through, and for a
    time that is a safe integer, as the clock's is. *)
Theorem same_millisecond_buttons_share_an_id
    (sv : server) (fields1 fields2 : list (string * json)) (now : Z)
    (items : list json) :
  JS.safe_integer now ->
  stored sv = Some items ->
  Forall (fun b => b <> JNull) items ->
  let id := JS.number_toString now in
  let sv1 := fst (api_buttons_post (Some (JObj fields1)) now Written sv) in
  let sv2 := fst (api_buttons_post (Some (JObj fields2)) now Written sv1) in
  stored sv2 = Some (items ++ [JObj (set_field "id" (JStr id) fields1);
                               JObj (set_field "id" (JStr id) fields2)]) /\
  button_id (JObj (set_field "id" (JStr id) fields1))
    = button_id (JObj (set_field "id" (JStr id) fields2)) /\
  buttonsFile (fst (api_buttons_delete ("/api/buttons/" +:+ id) Written sv2))
    = Parsed (JArr (without_id id items)).
Proof.
  intros _ Hst Hnn id sv1 sv2. subst sv2 sv1.
  rewrite (post_result sv (JObj fields1) _ now Written items Hst eq_refl).
  cbn [fst snd].
  rewrite (post_result _ (JObj fields2) _ now Written
             (items ++ [JObj (set_field "id" (JStr id) fields1)])
             (stored_after_save _ _) eq_refl).
  cbn [fst snd]. rewrite <- app_assoc. cbn [app].
  split; [reflexivity|]. split; [now rewrite !created_id|].
  rewrite (delete_result _ _ id Written
             (items ++ [JObj (set_field "id" (JStr id) fields1);
                        JObj (set_field "id" (JStr id) fields2)])).
  - cbn [fst]. rewrite without_id_app.
    change [JObj (set_field "id" (JStr id) fields1);
            JObj (set_field "id" (JStr id) fields2)]
      with ([JObj (set_field "id" (JStr id) fields1)]
            ++ [JObj (set_field "id" (JStr id) fields2)]).
    now rewrite without_id_app, !without_id_created, !app_nil_r.
  - reflexivity.
  - apply Forall_app. split; [exact Hnn | repeat constructor; discriminate].
  - apply path_id_created.
Qed.

Lemma same_millisecond_buttons_share_an_id_witness :
  buttonsFile
    (fst (api_buttons_delete ("/api/buttons/" +:+ JS.number_toString 17) Written
            (fst (api_buttons_post (Some (JObj [("name", JStr "Mute")])) 17 Written
                    (fst (api_buttons_post (Some (JObj [("name", JStr "Power")])) 17
                            Written fresh))))))
  = Parsed (JArr []).
Proof.
  assert (H17 : JS.safe_integer 17) by (unfold JS.safe_integer; lia).
  pose proof (same_millisecond_buttons_share_an_id fresh
                [("name", JStr "Power")] [("name", JStr "Mute")] 17 []
                H17 eq_refl (List.Forall_nil _)) as (_ & _ & H).
  exact H.
Defined.

(** *** The button file over any sequence of requests *)

Lemma sound_stored (sv : server) :
  sound_store (buttonsFile sv) ->
  exists items, stored sv = Some items /\ Forall (fun b => is_container b = true) items.
Proof.
  unfold sound_store, stored.
  destruct (buttonsFile sv) as [|m|[| | | |items|]]; try contradiction;
    intros H; eexists; split; try reflexivity; auto.
Qed.

Lemma filter_id_containers (id : option string) (items : list json) :
  Forall (fun b => is_container b = true) items ->
  exists kept, filter_id id items = Some kept /\
               Forall (fun b => is_container b = true) kept.
Proof.
  induction 1 as [|b items Hb _ (kept & IH & Hk)]; [now exists []|]. simpl.
  rewrite IH.
  assert (exists keep, id_differs id b = Some keep) as [keep ->]
    by (destruct b; try discriminate; now eexists).
  exists (if keep then b :: kept else kept). split; [reflexivity|].
  destruct keep; [now constructor | exact Hk].
Qed.

Lemma assign_id_container (id : string) (b created : json) :
  assign_id id b = Some created -> is_container created = true.
Proof. destruct b; simpl; intros [= <-]; reflexivity. Qed.

Lemma after_write_sound (out : write_outcome (file_content json)) (items : list json) :
  sound_outcome out ->
  Forall (fun b => is_container b = true) items ->
  sound_store (after_write out (JArr items)).
Proof. destruct out; simpl; auto. Qed.

Lemma delete_on_sound_store (pathname : string)
    (out : write_outcome (file_content json)) (sv : server) :
  sound_store (buttonsFile sv) ->
  exists kept,
    Forall (fun b => is_container b = true) kept /\
    api_buttons_delete pathname out sv
    = (saveButtons out (JArr kept) (fst (loadButtons sv)), Ok200 (JArr kept)).
Proof.
  intros Hs. destruct (sound_stored sv Hs) as (items & Hst & Hc).
  destruct (filter_id_containers (path_id pathname) items Hc) as (kept & Hk & Hkc).
  exists kept. split; [exact Hkc|].
  unfold api_buttons_delete, loadButtons.
  store_cases Hst; simpl in Hk; try (injection Hk as <-; reflexivity).
  now rewrite Hk.
Qed.

Lemma serve_sound (q : button_request) (sv : server) :
  sound_store (buttonsFile sv) -> sound_request q ->
  sound_store (buttonsFile (fst (serve q sv))).
Proof.
  intros Hs Hq. destruct q as [|body now out|pathname out]; simpl in *.
  - unfold api_buttons_get. pose proof (loadButtons_file sv) as (Hf & _).
    destruct (loadButtons sv); simpl in *. now rewrite Hf.
  - destruct body as [b|]; [|exact Hs].
    destruct (assign_id (JS.number_toString now) b) as [created|] eqn:Ea.
    + destruct (sound_stored sv Hs) as (items & Hst & Hc).
      rewrite (post_result sv b created now out items Hst Ea). simpl.
      rewrite (proj1 (saveButtons_file _ _ _)).
      apply after_write_sound; [exact Hq|].
      apply Forall_app. split; [exact Hc|].
      constructor; [exact (assign_id_container _ b created Ea) | constructor].
    + unfold api_buttons_post. rewrite Ea.
      pose proof (loadButtons_file sv) as (Hf & _).
      destruct (loadButtons sv); simpl in *. now rewrite Hf.
  - destruct (delete_on_sound_store pathname out sv Hs) as (kept & Hk & ->). simpl.
    rewrite (proj1 (saveButtons_file _ _ _)). now apply after_write_sound.
Qed.

(** X7. Starting from a button file that is missing, unreadable or an
    array of objects and arrays, any sequence of GET, POST and DELETE
    requests leaves such a file (a failed write leaving one too); and
    on such a file every GET answers 200 with an array and every
    DELETE answers 200, whatever its path. *)
Theorem button_store_stays_sound (qs : list button_request) (sv : server) :
  sound_store (buttonsFile sv) ->
  Forall sound_request qs ->
  sound_store (buttonsFile (serve_all qs sv)) /\
  (exists items, snd (api_buttons_get (serve_all qs sv)) = Ok200 (JArr items)) /\
  (forall pathname out, exists kept,
     snd (api_buttons_delete pathname out (serve_all qs sv)) = Ok200 (JArr kept)).
Proof.
  intros Hs Hq.
  assert (H : sound_store (buttonsFile (serve_all qs sv))).
  { revert sv Hs. induction Hq as [|q qs Hq _ IH]; intros sv Hs; [exact Hs|].
    unfold serve_all in *. simpl. apply IH. now apply serve_sound. }
  split; [exact H|]. split.
  - destruct (sound_stored _ H) as (items & Hst & _). exists items.
    unfold api_buttons_get, loadButtons. store_cases Hst; reflexivity.
  - intros pathname out.
    destruct (delete_on_sound_store pathname out _ H) as (kept & _ & ->).
    now exists kept.
Qed.

Lemma button_store_stays_sound_witness :
  sound_store
    (buttonsFile
       (serve_all [ PostButton (Some (JObj [("name", JStr "Power")])) 17 Written;
                    DeleteButton "/api/buttons/17" Written;
                    GetButtons ] fresh)).
Proof.
  apply (button_store_stays_sound
           [ PostButton (Some (JObj [("name", JStr "Power")])) 17 Written;
             DeleteButton "/api/buttons/17" Written;
             GetButtons ] fresh).
  - exact I.
  - repeat constructor.
Defined.

(** X8. A [null] in the stored array, which no POST puts there, makes
    every DELETE answer 500 and write nothing. *)
Theorem null_entry_blocks_delete (sv : server) (pathname : string)
    (out : write_outcome (file_content json)) (items : list json) :
  buttonsFile sv = Parsed (JArr items) ->
  In JNull items ->
  api_buttons_delete pathname out sv = (sv, Error500 TypeError).
Proof.
  intros Hf Hin. unfold api_buttons_delete, loadButtons. rewrite Hf.
  now rewrite (filter_id_null _ items Hin).
Qed.

Lemma null_entry_blocks_delete_witness :
  api_buttons_delete "/api/buttons/17" Written
    (set_buttonsFile (Parsed (JArr [JObj [("id", JStr "17")]; JNull])) fresh)
  = (set_buttonsFile (Parsed (JArr [JObj [("id", JStr "17")]; JNull])) fresh,
     Error500 TypeError).
Proof.
  apply (null_entry_blocks_delete _ "/api/buttons/17" Written
           [JObj [("id", JStr "17")]; JNull]).
  - reflexivity.
  - simpl. right. left. reflexivity.
Defined.

End Buttons.

(** ** Connect requests and the saved configuration *)

Section ConnectRequests.

Lemma role_of_type_of_role (r : role) : role_of_type (Some (type_of_role r)) = Some r.
Proof. now destruct r. Qed.

Lemma truthy_nonempty (path : string) : path <> "" -> JS.truthy (Some path) = true.
Proof. destruct path; [congruence | reflexivity]. Qed.

Lemma isOpen_set_handle (r : role) (v : option nat) (s : state) (p : nat) :
  isOpen (set_handle r v s) p = isOpen s p.
Proof. unfold isOpen. now rewrite set_handle_ports. Qed.

(** An awaited connect to a device that opens. *)
Lemma await_connect_opens
    (device : string -> option string) (r : role) (path : string) (s : state) :
  path <> "" -> device path = None ->
  snd (await_connect device r (Some path) s)
    = Fulfilled {| success := true; disconnected := false |} /\
  handle r (fst (await_connect device r (Some path) s)) = Some (length (ports s)) /\
  ports (fst (await_connect device r (Some path) s)) !! length (ports s)
    = Some {| sp_role := r; sp_path := path; sp_baudRate := 9600;
              sp_status := Open; sp_written := [] |}.
Proof.
  intros Hp Hd. unfold await_connect, connect_call.
  rewrite (truthy_nonempty path Hp). simpl. rewrite Hd.
  set (s1 := close_existing r s).
  set (new := {| sp_role := r; sp_path := path; sp_baudRate := 9600;
                 sp_status := Opening; sp_written := [] |}).
  assert (Hl : length (ports s1) = length (ports s)) by apply close_existing_length.
  assert (Hnew : ports (set_ports (ports s1 ++ [new]) s1) !! length (ports s1) = Some new).
  { simpl. now rewrite lookup_snoc, Nat.eqb_refl. }
  split; [|split].
  - unfold on_open. now rewrite Hnew.
  - rewrite (on_open_handle _ _ new r Hnew). simpl.
    replace (role_eqb r r) with true by now destruct r. now rewrite Hl.
  - rewrite on_open_ports, set_status_lookup, <- Hl, Nat.eqb_refl, Hnew. reflexivity.
Qed.

(** An awaited connect to a device that does not open. *)
Lemma await_connect_fails
    (device : string -> option string) (r : role) (path message : string) (s : state) :
  path <> "" -> device path = Some message ->
  snd (await_connect device r (Some path) s) = RejectedWith message /\
  (forall r', handle r' (fst (await_connect device r (Some path) s)) = handle r' s) /\
  (forall p, handle r s = Some p ->
     isOpen (fst (await_connect device r (Some path) s)) p = false).
Proof.
  intros Hp Hd. unfold await_connect, connect_call.
  rewrite (truthy_nonempty path Hp). simpl. rewrite Hd.
  set (s1 := close_existing r s).
  set (new := {| sp_role := r; sp_path := path; sp_baudRate := 9600;
                 sp_status := Opening; sp_written := [] |}).
  assert (Hnew : ports (set_ports (ports s1 ++ [new]) s1) !! length (ports s1) = Some new).
  { simpl. now rewrite lookup_snoc, Nat.eqb_refl. }
  split; [|split].
  - unfold on_open_error. now rewrite Hnew.
  - intros r'. rewrite on_open_error_handle.
    change (handle r' (set_ports (ports s1 ++ [new]) s1)) with (handle r' s1).
    apply close_existing_handle.
  - intros p Hh. unfold isOpen. rewrite on_open_error_ports, set_status_lookup.
    pose proof (close_existing_not_open r s p Hh) as Hc. unfold isOpen in Hc.
    fold s1 in Hc. simpl. rewrite lookup_snoc.
    destruct (Nat.eqb_spec (length (ports s1)) p) as [<-|Hne].
    + reflexivity.
    + exact Hc.
Qed.

Lemma await_connect_disconnects
    (device : string -> option string) (r : role) (port : option string) (s : state) :
  JS.truthy port = false ->
  await_connect device r port s
  = (set_handle r None (close_existing r s),
     Fulfilled {| success := true; disconnected := true |}).
Proof. intros Hp. unfold await_connect, connect_call. now rewrite Hp. Qed.

Lemma saved_with_saved (r r' : role) (v : option string) (c : config) :
  saved r' (with_saved r v c) = if decide (r' = r) then v else saved r' c.
Proof. destruct r, r'; reflexivity. Qed.

Lemma api_connect_opens
    (device : string -> option string) (sv : server) (r : role) (path : string)
    (out : write_outcome (option config)) :
  path <> "" -> device path = None ->
  api_connect device (Some {| cb_port := Some path; cb_type := Some (type_of_role r) |})
    out sv
  = (saveConfig out (with_saved r (Some path) (loadConfig (configFile sv)))
       (set_session (fst (await_connect device r (Some path) (session sv))) sv),
     Ok200 {| cr_port := Some path; cr_type := Some (type_of_role r);
              cr_disconnected := false |}).
Proof.
  intros Hp Hd. unfold api_connect. cbn [cb_type cb_port].
  rewrite role_of_type_of_role.
  pose proof (await_connect_opens device r path (session sv) Hp Hd) as (Hr & _).
  destruct (await_connect device r (Some path) (session sv)) as [s1 outcome].
  simpl in Hr. subst outcome. cbn [fst disconnected].
  unfold JS.or_null. now rewrite (truthy_nonempty path Hp).
Qed.



(** X10. A connect request with a path, for a device that does not
    open, answers 500 with the device's error and does not write the
    configuration; but the port the role held before has been closed,
    and the role's variable still refers to it: the saved path names a
    connection that is no longer open. *)
Theorem failed_connect_request_keeps_config
    (device : string -> option string) (sv : server) (r : role)
    (path message : string) (out : write_outcome (option config)) :
  path <> "" -> device path = Some message ->
  let body := Some {| cb_port := Some path; cb_type := Some (type_of_role r) |} in
  snd (api_connect device body out sv) = Error500 (ErrorMessage message) /\
  configFile (fst (api_connect device body out sv)) = configFile sv /\
  errors (fst (api_connect device body out sv)) = errors sv /\
  handle r (session (fst (api_connect device body out sv))) = handle r (session sv) /\
  (forall p, handle r (session sv) = Some p ->
     isOpen (session (fst (api_connect device body out sv))) p = false).
Proof.
  intros Hp Hd body. subst body. unfold api_connect. cbn [cb_type cb_port].
  rewrite role_of_type_of_role.
  pose proof (await_connect_fails device r path message (session sv) Hp Hd)
    as (Hr & Hh & Ho).
  destruct (await_connect device r (Some path) (session sv)) as [s1 outcome].
  simpl in Hr, Hh, Ho. subst outcome. simpl.
  repeat split; auto.
Qed.

Lemma failed_connect_request_keeps_config_witness :
  snd (api_connect no_device
         (Some {| cb_port := Some "/dev/ttyUSB0"; cb_type := Some (type_of_role Receiver) |})
         Written fresh)
  = Error500 (ErrorMessage "Error: No such file or directory, cannot open /dev/ttyUSB0").
Proof.
  pose proof (failed_connect_request_keeps_config no_device fresh Receiver
                "/dev/ttyUSB0"
                "Error: No such file or directory, cannot open /dev/ttyUSB0" Written) as H.
  destruct H as (H & _); [discriminate | reflexivity | exact H].
Defined.

(** X11. A connect request with an empty or absent path answers 200
    with [disconnected: true], clears the role's variable, and saves
    [null] as the role's path while keeping the path saved for the
    other role. *)
Theorem disconnect_request_clears_saved_path
    (device : string -> option string) (sv : server) (r : role)
    (port : option string) (out : write_outcome (option config)) :
  JS.truthy port = false ->
  let body := Some {| cb_port := port; cb_type := Some (type_of_role r) |} in
  snd (api_connect device body out sv)
    = Ok200 {| cr_port := port; cr_type := Some (type_of_role r);
               cr_disconnected := true |} /\
  handle r (session (fst (api_connect device body out sv))) = None /\
  (exists c,
     configFile (fst (api_connect device body Written sv)) = Some c /\
     saved r c = None /\
     forall r', r' <> r -> saved r' c = saved r' (loadConfig (configFile sv))).
Proof.
  intros Hp body. subst body. unfold api_connect. cbn [cb_type cb_port].
  rewrite role_of_type_of_role, (await_connect_disconnects device r port _ Hp).
  cbn [fst snd disconnected]. split; [reflexivity|]. split.
  - destruct out; simpl; apply set_handle_same.
  - eexists. split; [reflexivity|]. unfold JS.or_null. rewrite Hp. split.
    + rewrite saved_with_saved. now rewrite decide_True.
    + intros r' Hne. rewrite saved_with_saved. now rewrite decide_False.
Qed.

Lemma disconnect_request_clears_saved_path_witness :
  snd (api_connect (fun _ => None)
         (Some {| cb_port := None; cb_type := Some (type_of_role Transmitter) |})
         Written fresh)
  = Ok200 {| cr_port := None; cr_type := Some "transmitter"; cr_disconnected := true |}.
Proof.
  pose proof (disconnect_request_clears_saved_path (fun _ => None) fresh Transmitter
                None Written eq_refl) as (H & _).
  exact H.
Defined.



(** *** A saved path and the next start *)

Lemma server_listen_connects
    (device : string -> option string) (c : config) (r : role) (path : string) :
  saved r c = Some path -> path <> "" -> device path = None ->
  exists p,
    handle r (server_listen device (Some c) init) = Some p /\
    isOpen (server_listen device (Some c) init) p = true /\
    sp_path <$> ports (server_listen device (Some c) init) !! p = Some path.
Proof.
  intros Hs Hp Hd. destruct path as [|ch rest]; [congruence|].
  destruct c as [rp tp]; destruct r; simpl in Hs; subst.
  - destruct tp as [[|c2 p2]|]; unfold server_listen;
      cbn [loadConfig default cfg_receiverPort cfg_transmitterPort];
      eval_reconnect device Receiver Hd; eval_reconnect device Transmitter Hd;
      eexists; cbn; repeat split.
  - destruct rp as [[|c1 p1]|]; unfold server_listen;
      cbn [loadConfig default cfg_receiverPort cfg_transmitterPort];
      eval_reconnect device Receiver Hd; eval_reconnect device Transmitter Hd;
      eexists; cbn; repeat split.
Qed.

Lemma server_listen_skips
    (device : string -> option string) (c : config) (r : role) :
  JS.truthy (saved r c) = false ->
  handle r (server_listen device (Some c) init) = None /\
  forall p sp, ports (server_listen device (Some c) init) !! p = Some sp ->
               sp_role sp <> r.
Proof.
  intros Hs. destruct c as [rp tp]; destruct r; simpl in Hs.
  - destruct rp as [[|c1 p1]|]; try discriminate;
      destruct tp as [[|c2 p2]|]; unfold server_listen;
      cbn [loadConfig default cfg_receiverPort cfg_transmitterPort];
      eval_reconnect device Receiver Hs; eval_reconnect device Transmitter Hs;
      (split; [reflexivity|]); intros [|[|p]] sp; cbn; intros [= <-]; discriminate.
  - destruct tp as [[|c2 p2]|]; try discriminate;
      destruct rp as [[|c1 p1]|]; unfold server_listen;
      cbn [loadConfig default cfg_receiverPort cfg_transmitterPort];
      eval_reconnect device Receiver Hs; eval_reconnect device Transmitter Hs;
      (split; [reflexivity|]); intros [|[|p]] sp; cbn; intros [= <-]; discriminate.
Qed.

(** X13. The path a successful connect request saved is the one the
    next start reconnects: after the request and a restart, with the
    device still opening, the role holds an open port on that path. *)
Theorem saved_path_is_reconnected_at_restart
    (device : string -> option string) (sv : server) (r : role) (path : string) :
  path <> "" -> device path = None ->
  let sv1 := fst (api_connect device
                    (Some {| cb_port := Some path; cb_type := Some (type_of_role r) |})
                    Written sv) in
  exists p,
    handle r (session (restart device sv1)) = Some p /\
    isOpen (session (restart device sv1)) p = true /\
    sp_path <$> ports (session (restart device sv1)) !! p = Some path.
Proof.
  intros Hp Hd sv1. subst sv1.
  rewrite (api_connect_opens device sv r path Written Hp Hd).
  cbn [fst saveConfig restart configFile set_configFile set_session session].
  apply server_listen_connects; [|exact Hp|exact Hd].
  rewrite saved_with_saved. now rewrite decide_True.
Qed.

Lemma saved_path_is_reconnected_at_restart_witness :
  exists p,
    handle Transmitter
      (session (restart (fun _ => None)
         (fst (api_connect (fun _ => None)
                 (Some {| cb_port := Some "/dev/ttyUSB1";
                          cb_type := Some (type_of_role Transmitter) |})
                 Written fresh)))) = Some p /\
    isOpen
      (session (restart (fun _ => None)
         (fst (api_connect (fun _ => None)
                 (Some {| cb_port := Some "/dev/ttyUSB1";
                          cb_type := Some (type_of_role Transmitter) |})
                 Written fresh)))) p = true /\
    sp_path <$> ports
      (session (restart (fun _ => None)
         (fst (api_connect (fun _ => None)
                 (Some {| cb_port := Some "/dev/ttyUSB1";
                          cb_type := Some (type_of_role Transmitter) |})
                 Written fresh)))) !! p = Some "/dev/ttyUSB1".
Proof.
  apply (saved_path_is_reconnected_at_restart (fun _ => None) fresh Transmitter
           "/dev/ttyUSB1"); [discriminate | reflexivity].
Defined.

(** X14. A disconnect request whose write of the configuration file
    goes through is remembered: after it and a restart the role holds
    no port and no port has been created for it, whatever the devices
    do. *)
Theorem disconnect_survives_restart
    (device : string -> option string) (sv : server) (r : role)
    (port : option string) :
  JS.truthy port = false ->
  let sv1 := fst (api_connect device
                    (Some {| cb_port := port; cb_type := Some (type_of_role r) |})
                    Written sv) in
  handle r (session (restart device sv1)) = None /\
  forall p sp, ports (session (restart device sv1)) !! p = Some sp -> sp_role sp <> r.
Proof.
  intros Hp sv1. subst sv1. unfold api_connect. cbn [cb_type cb_port].
  rewrite role_of_type_of_role, (await_connect_disconnects device r port _ Hp).
  cbn [fst saveConfig restart configFile set_configFile set_session session].
  apply server_listen_skips.
  rewrite saved_with_saved, decide_True by reflexivity.
  unfold JS.or_null. now rewrite Hp.
Qed.

Lemma disconnect_survives_restart_witness :
  handle Receiver
    (session (restart (fun _ => None)
       (fst (api_connect (fun _ => None)
               (Some {| cb_port := Some ""; cb_type := Some (type_of_role Receiver) |})
               Written
               (set_configFile
                  (Some {| cfg_receiverPort := Some "/dev/ttyUSB0";
                           cfg_transmitterPort := None |}) fresh))))) = None.
Proof.
  pose proof (disconnect_survives_restart (fun _ => None)
                (set_configFile
                   (Some {| cfg_receiverPort := Some "/dev/ttyUSB0";
                            cfg_transmitterPort := None |}) fresh)
                Receiver (Some "") eq_refl) as (H & _).
  exact H.
Defined.

End ConnectRequests.

(** ** Send requests *)

Section SendRequests.

Lemma set_session_same (sv : server) : set_session (session sv) sv = sv.
Proof. now destruct sv. Qed.

Lemma write_failed_written (p q : nat) (message : string) (s : state) :
  written_to (write_failed p message s) q = written_to s q.
Proof.
  unfold write_failed, written_to. destruct (ports s !! p) as [sp|] eqn:Hp; [|reflexivity].
  change (ports (log (port_error_entry (sp_role sp) message) (set_status p Closed s)))
    with (ports (set_status p Closed s)).
  rewrite set_status_lookup.
  destruct (Nat.eqb p q); [|reflexivity].
  now destruct (ports s !! q).
Qed.

Lemma write_failed_closes (p : nat) (message : string) (s : state) :
  isOpen (write_failed p message s) p = false.
Proof.
  unfold write_failed, isOpen. destruct (ports s !! p) as [sp|] eqn:Hp.
  - change (ports (log (port_error_entry (sp_role sp) message) (set_status p Closed s)))
      with (ports (set_status p Closed s)).
    rewrite set_status_lookup, Hp. simpl. now rewrite Nat.eqb_refl.
  - now rewrite Hp.
Qed.

Lemma write_failed_handle (p : nat) (message : string) (s : state) (r : role) :
  handle r (write_failed p message s) = handle r s.
Proof.
  unfold write_failed. destruct (ports s !! p) as [sp|]; [|reflexivity].
  change (handle r (log (port_error_entry (sp_role sp) message) (set_status p Closed s)))
    with (handle r (set_status p Closed s)).
  apply set_status_handle.
Qed.

Lemma write_failed_console (p : nat) (message : string) (s : state) (r : role) :
  role_of s p = Some r ->
  console (write_failed p message s) = console s ++ [port_error_entry r message].
Proof.
  unfold write_failed, role_of. destruct (ports s !! p) as [sp|]; [|discriminate].
  intros [= <-]. simpl. unfold set_status. now destruct (ports s !! p).
Qed.

(** The session after the call of [sendIRCommand] that hands a command
    to the open port [p]. *)
Lemma send_hands_over (protocol : string) (bits : Z) (code : string) (s : state) (p : nat) :
  transmitterPort s = Some p -> isOpen s p = true ->
  sendIRCommand protocol bits code s
  = (port_write p (command_line protocol bits code)
       (log (SendingCommand (command_line protocol bits code)) s),
     AwaitingWrite p).
Proof. intros Ht Ho. unfold sendIRCommand. now rewrite Ht, Ho. Qed.

Lemma port_write_role_of (p q : nat) (chunk : string) (s : state) :
  role_of (port_write p chunk s) q = role_of s q.
Proof.
  unfold port_write, role_of. destruct (ports s !! p) as [sp|] eqn:Hp; [|reflexivity].
  simpl. destruct (Nat.eq_dec p q) as [<-|Hne].
  - rewrite list_lookup_insert_eq by (eapply lookup_lt_Some; eauto).
    now rewrite Hp.
  - now rewrite list_lookup_insert_ne by exact Hne.
Qed.

Lemma port_write_handle (p : nat) (chunk : string) (s : state) (r : role) :
  handle r (port_write p chunk s) = handle r s.
Proof. unfold port_write. destruct (ports s !! p); now destruct r. Qed.

Lemma port_write_console (p : nat) (chunk : string) (s : state) :
  console (port_write p chunk s) = console s.
Proof. unfold port_write. now destruct (ports s !! p). Qed.

Lemma port_write_isOpen (p q : nat) (chunk : string) (s : state) :
  isOpen (port_write p chunk s) q = isOpen s q.
Proof.
  unfold port_write, isOpen. destruct (ports s !! p) as [sp|] eqn:Hp; [|reflexivity].
  simpl. destruct (Nat.eq_dec p q) as [<-|Hne].
  - rewrite list_lookup_insert_eq by (eapply lookup_lt_Some; eauto).
    now rewrite Hp.
  - now rewrite list_lookup_insert_ne by exact Hne.
Qed.

(** X15. In a session where each role's variable refers to a port
    created for that role, as in every execution, a send request whose
    bit length is a safe integer answers 200 exactly when the
    transmitter's port is open and the transport reports no error for
    the write. Without an open port it answers
    500 with "Transmitter not connected" and changes nothing. With an
    open port the command line is handed to the port once; when the
    transport reports no error the port stays open, and when it
    reports one the request is answered with 500 and the transport's
    message although the command was handed over, the port is closed
    while [transmitterPort] still refers to it, and the error is
    logged as a transmitter port error. No file is touched. *)
Theorem send_request_outcomes (b : send_body) (ack : option string) (sv : server) :
  JS.safe_integer (sb_bits b) ->
  handles_typed (session sv) ->
  (match transmitterPort (session sv) with
   | Some p =>
       if isOpen (session sv) p then
         snd (api_send (Some b) ack sv)
           = match ack with
             | None => Ok200 {| send_success := true |}
             | Some message => Error500 (ErrorMessage message)
             end /\
         written_to (session (fst (api_send (Some b) ack sv))) p
           = written_to (session sv) p
             ++ [sb_protocol b +:+ "," +:+ JS.number_toString (sb_bits b) +:+ ","
                 +:+ sb_code b +:+ String "010"%char ""] /\
         JS.decimal_value (JS.number_toString (sb_bits b)) = Some (sb_bits b) /\
         transmitterPort (session (fst (api_send (Some b) ack sv))) = Some p /\
         match ack with
         | None => isOpen (session (fst (api_send (Some b) ack sv))) p = true
         | Some message =>
             isOpen (session (fst (api_send (Some b) ack sv))) p = false /\
             console (session (fst (api_send (Some b) ack sv)))
             = console (session sv)
               ++ [SendingCommand (sb_protocol b +:+ "," +:+ JS.number_toString (sb_bits b)
                                   +:+ "," +:+ sb_code b +:+ String "010"%char "");
                   TransmitterPortError message]
         end
       else
         api_send (Some b) ack sv
           = (sv, Error500 (ErrorMessage "Transmitter not connected"))
   | None =>
       api_send (Some b) ack sv
         = (sv, Error500 (ErrorMessage "Transmitter not connected"))
   end) /\
  buttonsFile (fst (api_send (Some b) ack sv)) = buttonsFile sv /\
  configFile (fst (api_send (Some b) ack sv)) = configFile sv.
Proof.
  intros _ Hty. unfold api_send.
  destruct (transmitterPort (session sv)) as [p|] eqn:Ht;
    [destruct (isOpen (session sv) p) eqn:Ho|].
  - rewrite (send_hands_over _ _ _ _ p Ht Ho).
    set (line := command_line (sb_protocol b) (sb_bits b) (sb_code b)).
    set (s1 := port_write p line (log (SendingCommand line) (session sv))).
    assert (Hw : written_to s1 p = written_to (session sv) p ++ [line]).
    { subst s1. rewrite port_write_written, Nat.eqb_refl. simpl.
      rewrite bool_decide_eq_true_2 by now apply isOpen_is_Some. reflexivity. }
    assert (Hr : role_of s1 p = Some Transmitter).
    { subst s1. rewrite port_write_role_of. apply (Hty Transmitter p Ht). }
    assert (Hh : transmitterPort s1 = Some p).
    { subst s1. now rewrite (port_write_handle p line _ Transmitter). }
    assert (Hc : console s1 = console (session sv) ++ [SendingCommand line]).
    { subst s1. now rewrite port_write_console. }
    assert (Hi : isOpen s1 p = true).
    { subst s1. now rewrite port_write_isOpen. }
    destruct ack as [message|]; cbn [write_callback fst snd].
    + split; [|split; reflexivity].
      split; [reflexivity|]. cbn [session set_session].
      split; [now rewrite write_failed_written|].
      split; [apply decimal_value_toString|].
      split; [exact (eq_trans (write_failed_handle p message s1 Transmitter) Hh)|].
      split; [apply write_failed_closes|].
      rewrite (write_failed_console p message s1 Transmitter Hr), Hc, <- app_assoc.
      reflexivity.
    + split; [|split; reflexivity].
      split; [reflexivity|]. cbn [session set_session].
      split; [exact Hw|]. split; [apply decimal_value_toString|].
      split; [exact Hh | exact Hi].
  - unfold sendIRCommand. rewrite Ht, Ho. rewrite set_session_same. repeat split.
  - unfold sendIRCommand. rewrite Ht. rewrite set_session_same. repeat split.
Qed.

Lemma transmitter_connected_typed : handles_typed transmitter_connected.
Proof. intros [] p; cbn; intros [= <-]; reflexivity. Qed.

Lemma send_request_outcomes_witness :
  let sv := set_session transmitter_connected fresh in
  let request := Some {| sb_protocol := "NEC"; sb_bits := 32; sb_code := "0x1" |} in
  snd (api_send request (Some "EIO") sv) = Error500 (ErrorMessage "EIO") /\
  written_to (session (fst (api_send request (Some "EIO") sv))) 0
  = ["NEC,32,0x1" +:+ String "010"%char ""] /\
  isOpen (session (fst (api_send request (Some "EIO") sv))) 0 = false /\
  console (session (fst (api_send request (Some "EIO") sv)))
  = [TransmitterConnected "/dev/ttyUSB1";
     SendingCommand ("NEC,32,0x1" +:+ String "010"%char "");
     TransmitterPortError "EIO"] /\
  snd (api_send request None sv) = Ok200 {| send_success := true |} /\
  isOpen (session (fst (api_send request None sv))) 0 = true.
Proof.
  intros sv request.
  assert (H32 : JS.safe_integer 32) by (unfold JS.safe_integer; lia).
  destruct (send_request_outcomes
              {| sb_protocol := "NEC"; sb_bits := 32; sb_code := "0x1" |}
              (Some "EIO") sv H32 transmitter_connected_typed)
    as ((A & W & _ & _ & O & L) & _).
  destruct (send_request_outcomes
              {| sb_protocol := "NEC"; sb_bits := 32; sb_code := "0x1" |}
              None sv H32 transmitter_connected_typed)
    as ((A' & _ & _ & _ & O') & _).
  split; [exact A|]. split; [exact W|]. split; [exact O|]. split; [exact L|].
  split; [exact A' | exact O'].
Defined.

End SendRequests.

(** ** Subscribers over whole executions *)

Section Subscriptions.

Lemma filter_map_client (res : nat) (l : list timer) :
  List.map tm_client (List.filter (fun t => negb (Nat.eqb (tm_client t) res)) l)
  = List.filter (fun c => negb (Nat.eqb c res)) (List.map tm_client l).
Proof.
  induction l as [|t l IH]; [reflexivity|]. simpl.
  destruct (negb (Nat.eqb (tm_client t) res)); simpl; now rewrite IH.
Qed.

Lemma map_advance_client (res : nat) (l : list timer) :
  List.map tm_client (List.map (advance res) l) = List.map tm_client l.
Proof.
  induction l as [|t l IH]; [reflexivity|]. simpl. now rewrite advance_client, IH.
Qed.

Lemma advance_interval (res : nat) (t : timer) :
  tm_interval (advance res t) = tm_interval t.
Proof. unfold advance. now destruct (Nat.eqb (tm_client t) res). Qed.

Lemma apply_timers_follow (e : event) (s : state) :
  List.map tm_client (timers s) = connectedClients s ->
  List.map tm_client (timers (apply e s)) = connectedClients (apply e s).
Proof.
  intros H. pose proof (apply_timers e s) as Ht.
  pose proof (apply_subscribers e s) as Hc.
  destruct e; destruct Hc as [-> _]; rewrite Ht; try exact H.
  - rewrite map_app, H. reflexivity.
  - now rewrite filter_map_client, H.
  - destruct (has_timer res s); [|exact H]. now rewrite map_advance_client.
Qed.

Lemma apply_timers_interval (e : event) (s : state) :
  Forall (fun t => tm_interval t = keepalive_interval) (timers s) ->
  Forall (fun t => tm_interval t = keepalive_interval) (timers (apply e s)).
Proof.
  intros H. pose proof (apply_timers e s) as Ht.
  destruct e; rewrite Ht; try exact H.
  - apply Forall_app. split; [exact H | repeat constructor].
  - rewrite List.Forall_forall in *. intros t Hin.
    apply filter_In in Hin as [Hin _]. now apply H.
  - destruct (has_timer res s); [|exact H].
    rewrite List.Forall_forall in *. intros t Hin.
    apply in_map_iff in Hin as (t0 & <- & Hin). rewrite advance_interval. now apply H.
Qed.

(** X16. In every execution from the start, the keep-alive timers are
    those of the subscribers, one each and in the same order, every
    one with the interval of 30000 ms, and no subscriber is listed
    twice: a closed request leaves no timer behind and no subscriber
    is without one. *)
Theorem timers_match_subscribers (es : list event) (s : state) :
  run es init = Some s ->
  List.map tm_client (timers s) = connectedClients s /\
  List.NoDup (connectedClients s) /\
  Forall (fun t => tm_interval t = 30000%N) (timers s).
Proof.
  intros Hrun.
  assert (H : forall s0,
            List.map tm_client (timers s0) = connectedClients s0 ->
            Forall (fun t => tm_interval t = keepalive_interval) (timers s0) ->
            run es s0 = Some s ->
            List.map tm_client (timers s) = connectedClients s /\
            Forall (fun t => tm_interval t = keepalive_interval) (timers s)).
  { clear Hrun. induction es as [|e es IH]; intros s0 H1 H2; simpl.
    - intros [= <-]. now split.
    - destruct (enabled e s0); [|discriminate].
      apply IH; [now apply apply_timers_follow | now apply apply_timers_interval]. }
  destruct (H init eq_refl (List.Forall_nil _) Hrun) as [H1 H2].
  split; [exact H1|]. split; [|exact H2].
  exact (proj1 (run_subscribers_wf es init s init_subscribers_wf Hrun)).
Qed.

Lemma timers_match_subscribers_witness :
  List.map tm_client (timers one_channel_closed) = connectedClients one_channel_closed.
Proof.
  pose proof (timers_match_subscribers [Subscribe 0; Subscribe 10; ChannelClosed 0]
                one_channel_closed eq_refl) as (H & _).
  exact H.
Defined.

Lemma filter_fresh (n : nat) (l : list nat) :
  Forall (fun c => c < n) l ->
  List.filter (fun c => negb (Nat.eqb c n)) (l ++ [n]) = l.
Proof.
  intros H. rewrite List.filter_app. simpl. rewrite Nat.eqb_refl. simpl.
  rewrite app_nil_r. induction H as [|c l Hc _ IH]; [reflexivity|]. simpl.
  replace (Nat.eqb c n) with false by (symmetry; apply Nat.eqb_neq; lia).
  simpl. now rewrite IH.
Qed.

Lemma filter_fresh_timer (n : nat) (t : timer) (l : list timer) :
  tm_client t = n ->
  Forall (fun t0 => tm_client t0 < n) l ->
  List.filter (fun t0 => negb (Nat.eqb (tm_client t0) n)) (l ++ [t]) = l.
Proof.
  intros Ht H. rewrite List.filter_app. simpl. rewrite Ht, Nat.eqb_refl. simpl.
  rewrite app_nil_r. induction H as [|c l Hc _ IH]; [reflexivity|]. simpl.
  replace (Nat.eqb (tm_client c) n) with false by (symmetry; apply Nat.eqb_neq; lia).
  simpl. now rewrite IH.
Qed.

(** X17. Closing the request of a subscription undoes the
    subscription: the subscriber list and the timers are again what
    they were before it. *)
Theorem unsubscribe_undoes_subscribe (now : N) (s : state) :
  subscribers_wf s -> timers_wf s ->
  connectedClients (on_request_close (snd (subscribe now s)) (fst (subscribe now s)))
    = connectedClients s /\
  timers (on_request_close (snd (subscribe now s)) (fst (subscribe now s)))
    = timers s.
Proof.
  intros [_ Hc] Ht. simpl. split.
  - now apply filter_fresh.
  - now apply filter_fresh_timer.
Qed.

Lemma unsubscribe_undoes_subscribe_witness :
  connectedClients (on_request_close (snd (subscribe 7 one_channel_closed))
                      (fst (subscribe 7 one_channel_closed)))
  = connectedClients one_channel_closed.
Proof.
  pose proof (unsubscribe_undoes_subscribe 7 one_channel_closed) as H.
  destruct H as (H & _).
  - split; [repeat constructor; simpl; lia | repeat constructor].
  - repeat constructor.
  - exact H.
Defined.

(** *** After the close of a request *)

Lemma has_timer_clients (res : nat) (s : state) :
  has_timer res s = existsb (fun c => Nat.eqb c res) (List.map tm_client (timers s)).
Proof.
  unfold has_timer. induction (timers s) as [|t l IH]; [reflexivity|].
  simpl. now rewrite IH.
Qed.

Lemma existsb_filter_false {A} (f g : A -> bool) (l : list A) :
  existsb f l = false -> existsb f (List.filter g l) = false.
Proof.
  induction l as [|a l IH]; [reflexivity|]. simpl.
  intros H. apply orb_false_iff in H as [Ha Hl].
  destruct (g a); simpl; [rewrite Ha|]; now apply IH.
Qed.

Lemma frames_of_clients (s s' : state) (res : nat) :
  clients s' = clients s -> frames_of s' res = frames_of s res.
Proof. unfold frames_of. now intros ->. Qed.

Lemma channel_closed_frames (res' res : nat) (s : state) :
  frames_of (channel_closed res' s) res = frames_of s res.
Proof.
  unfold channel_closed, frames_of.
  destruct (clients s !! res') as [ch|] eqn:Hc; [|reflexivity]. simpl.
  destruct (Nat.eq_dec res' res) as [->|Hne].
  - rewrite list_lookup_insert_eq by (eapply lookup_lt_Some; eauto). now rewrite Hc.
  - now rewrite list_lookup_insert_ne.
Qed.

Lemma apply_keeps_gone (e : event) (s : state) (res : nat) :
  gone_inv res s ->
  gone_inv res (apply e s) /\ frames_of (apply e s) res = frames_of s res.
Proof.
  intros (Hn & Ht & Hl).
  pose proof (apply_timers e s) as Et. pose proof (apply_subscribers e s) as Ec.
  unfold gone_inv. rewrite !has_timer_clients in *.
  destruct e as [r portPath|p|p message|p|p timestamp data|protocol bits code
                 |now|res'|res'|res'|p message]; destruct Ec as [Ec El]; rewrite Ec, El, Et.
  - split; [now repeat split|]. apply frames_of_clients. simpl.
    unfold connect_call. destruct (close_existing_clients r s) as [_ H].
    destruct (negb (JS.truthy portPath)); simpl; [destruct r; simpl|]; exact H.
  - split; [now repeat split|]. apply frames_of_clients. simpl.
    unfold on_open. destruct (ports s !! p) as [sp|]; [|reflexivity]. simpl.
    destruct (set_status_clients p Open s) as [_ H]. destruct (sp_role sp); exact H.
  - split; [now repeat split|]. apply frames_of_clients. simpl.
    unfold on_open_error. destruct (ports s !! p) as [sp|]; [|reflexivity].
    apply (set_status_clients p Closed s).
  - split; [now repeat split|]. apply frames_of_clients. simpl.
    destruct (device_lost_cases p s) as [-> | ->];
      [reflexivity | apply (set_status_clients p Closed s)].
  - split; [now repeat split|]. simpl. rewrite on_data_frames.
    rewrite (proj1 (count_occ_not_In Nat.eq_dec _ _) Hn).
    destruct (has_marker data && writable s res); apply app_nil_r.
  - split; [now repeat split|]. apply frames_of_clients. simpl.
    unfold sendIRCommand. destruct (transmitterPort s) as [p|]; [|reflexivity].
    destruct (isOpen s p); [|reflexivity]. simpl.
    unfold port_write. simpl. now destruct (ports s !! p).
  - split.
    + split; [|split; [|lia]].
      * rewrite in_app_iff. simpl. intros [H|[H|[]]]; [now apply Hn | lia].
      * rewrite map_app, existsb_app, Ht. simpl.
        replace (Nat.eqb (length (clients s)) res) with false
          by (symmetry; apply Nat.eqb_neq; lia). reflexivity.
    + unfold frames_of. simpl. now rewrite lookup_app_l.
  - split; [now repeat split|]. apply channel_closed_frames.
  - split; [|reflexivity]. split; [|split; [|exact Hl]].
    + rewrite filter_In. tauto.
    + rewrite filter_map_client. now apply existsb_filter_false.
  - split.
    + split; [exact Hn|]. split; [|exact Hl].
      destruct (has_timer res' s); [|exact Ht].
      now rewrite map_advance_client.
    + simpl. rewrite on_keepAlive_frames.
      destruct (Nat.eqb_spec res' res) as [->|Hne].
      * rewrite has_timer_clients, Ht. apply app_nil_r.
      * rewrite andb_false_r. apply app_nil_r.
  - split; [now repeat split|]. apply frames_of_clients. simpl.
    destruct (write_failed_cases p message s) as [-> | [r ->]];
      [reflexivity | apply (set_status_clients p Closed s)].
Qed.

(** X18. After the close handler of a request has run, nothing is ever
    written to that subscriber again, neither events nor keep-alives,
    whatever happens afterwards. *)
Theorem closed_subscriber_gets_nothing_more
    (res : nat) (s s' : state) (es : list event) :
  res < length (clients s) ->
  run es (on_request_close res s) = Some s' ->
  frames_of s' res = frames_of s res /\ ~ In res (connectedClients s').
Proof.
  intros Hl Hrun.
  assert (H0 : gone_inv res (on_request_close res s)).
  { split; [|split; [apply on_request_close_timer | exact Hl]].
    rewrite on_request_close_subscribers, filter_In, Nat.eqb_refl.
    intros [_ H]. discriminate. }
  change (frames_of s res) with (frames_of (on_request_close res s) res).
  revert H0 Hrun. generalize (on_request_close res s). clear s Hl.
  induction es as [|e es IH]; intros s H0; simpl.
  - intros [= <-]. split; [reflexivity | apply H0].
  - destruct (enabled e s); [|discriminate]. intros Hrun.
    destruct (apply_keeps_gone e s res H0) as [H1 Hf].
    destruct (IH _ H1 Hrun) as [Hf' Hn]. split; [congruence | exact Hn].
Qed.

Lemma closed_subscriber_gets_nothing_more_witness :
  frames_of
    (apply (Subscribe 3) (apply (KeepAlive 1) (on_request_close 0 one_channel_closed))) 0
  = frames_of one_channel_closed 0.
Proof.
  pose proof (closed_subscriber_gets_nothing_more 0 one_channel_closed
                (apply (Subscribe 3)
                   (apply (KeepAlive 1) (on_request_close 0 one_channel_closed)))
                [KeepAlive 1; Subscribe 3]) as H.
  destruct H as (H & _).
  - simpl. lia.
  - reflexivity.
  - exact H.
Defined.

End Subscriptions.

(** ** More on connections and frames *)

Section MoreSession.

Lemma awaited_connects_keep_one_port_witness :
  length (open_ports Receiver
            (fold_left (fun st c => fst (await_connect (fun _ => None) (fst c) (snd c) st))
               [ (Receiver, Some "/dev/ttyUSB0"); (Receiver, Some "/dev/ttyUSB1") ]
               init)) <= 1.
Proof.
  pose proof (awaited_connects_keep_one_port (fun _ => None)
                [ (Receiver, Some "/dev/ttyUSB0"); (Receiver, Some "/dev/ttyUSB1") ]
                init init_one_connection) as (_ & H).
  exact (proj1 (H Receiver)).
Defined.

Lemma json_members_printable (fields : list (string * string)) :
  forallb (fun x => (32 <=? N_of_ascii x)%N)
    (list_ascii_of_string (JS.json_members fields)) = true.
Proof.
  induction fields as [|[k v] fields IH]; [reflexivity|].
  destruct fields as [|f fields].
  - simpl JS.json_members.
    rewrite !list_ascii_of_append, !forallb_app, !json_string_printable. reflexivity.
  - change (JS.json_members ((k, v) :: f :: fields))
      with (JS.json_string k +:+ ":" +:+ JS.json_string v +:+ ","
            +:+ JS.json_members (f :: fields)).
    rewrite !list_ascii_of_append, !forallb_app, !json_string_printable, IH.
    reflexivity.
Qed.

(** X21. Whatever characters a line holds, line breaks and other
    control characters included, its event frame is "data: ", a
    payload without any control character, and a blank line: the
    payload cannot end the frame early. *)
Theorem event_frame_is_one_line (timestamp data : string) :
  exists payload,
    event_frame timestamp data
      = "data: " +:+ payload +:+ String JS.LF (String JS.LF "") /\
    forallb (fun x => (32 <=? N_of_ascii x)%N) (list_ascii_of_string payload) = true /\
    ~ In JS.LF (list_ascii_of_string payload).
Proof.
  exists (JS.json_object [("timestamp", timestamp); ("data", data)]).
  assert (H : forallb (fun x => (32 <=? N_of_ascii x)%N)
                (list_ascii_of_string
                   (JS.json_object [("timestamp", timestamp); ("data", data)])) = true).
  { unfold JS.json_object.
    rewrite !list_ascii_of_append, !forallb_app, json_members_printable. reflexivity. }
  split; [reflexivity|]. split; [exact H|].
  intros Hin. rewrite forallb_forall in H. specialize (H _ Hin). discriminate.
Qed.

Lemma with_status_role (st : port_status) (sp : serial_port) :
  sp_role (with_status st sp) = sp_role sp.
Proof. reflexivity. Qed.

Lemma set_status_role_of (p q : nat) (st : port_status) (s : state) :
  role_of (set_status p st s) q = role_of s q.
Proof.
  unfold role_of. rewrite set_status_lookup.
  destruct (Nat.eqb p q); [|reflexivity]. now destruct (ports s !! q).
Qed.

Lemma close_existing_role_of (r : role) (s : state) (q : nat) :
  role_of (close_existing r s) q = role_of s q.
Proof.
  unfold close_existing. destruct (handle r s) as [p|]; [|reflexivity].
  destruct (isOpen s p); [apply set_status_role_of | reflexivity].
Qed.

(** No step changes the role a port was created for. *)
Lemma apply_role_of (e : event) (s : state) (q : nat) (r : role) :
  role_of s q = Some r -> role_of (apply e s) q = Some r.
Proof.
  intros H.
  destruct e as [r0 portPath|p|p message|p|p timestamp data|protocol bits code
                 |now|res|res|res|p message]; simpl; try exact H.
  - unfold connect_call. destruct (negb (JS.truthy portPath)); simpl.
    + unfold role_of. rewrite set_handle_ports.
      change (role_of (close_existing r0 s) q = Some r).
      now rewrite close_existing_role_of.
    + unfold role_of. simpl.
      assert (Hq : role_of (close_existing r0 s) q = Some r)
        by now rewrite close_existing_role_of.
      unfold role_of in Hq.
      destruct (ports (close_existing r0 s) !! q) as [sp|] eqn:El; [|discriminate].
      now rewrite (lookup_app_l_Some _ _ _ _ El).
  - unfold role_of. rewrite on_open_ports.
    change (role_of (set_status p Open s) q = Some r). now rewrite set_status_role_of.
  - unfold role_of. rewrite on_open_error_ports.
    change (role_of (set_status p Closed s) q = Some r). now rewrite set_status_role_of.
  - destruct (device_lost_cases p s) as [-> | ->]; [exact H|].
    now rewrite set_status_role_of.
  - unfold role_of, on_data. destruct (has_marker data); [|exact H]. simpl.
    now rewrite (proj1 (proj2 (proj2 (proj2 (broadcast_same (event_frame timestamp data) s))))).
  - unfold sendIRCommand. destruct (transmitterPort s) as [p|]; [|exact H].
    destruct (isOpen s p); [|exact H]. simpl. unfold role_of, port_write. simpl.
    destruct (ports s !! p) as [sp|] eqn:Ep; [|exact H]. simpl.
    destruct (Nat.eq_dec p q) as [->|Hne].
    + rewrite list_lookup_insert_eq by (eapply lookup_lt_Some; eauto).
      unfold role_of in H. rewrite Ep in H. exact H.
    + now rewrite list_lookup_insert_ne.
  - unfold role_of, channel_closed. now destruct (clients s !! res).
  - unfold role_of, on_keepAlive. destruct (has_timer res s); [|exact H]. simpl.
    now rewrite (proj1 (proj2 (proj2 (proj2 (client_write_same res keepalive_frame s))))).
  - destruct (write_failed_cases p message s) as [-> | [r1 ->]]; [exact H|].
    change (role_of (set_status p Closed s) q = Some r).
    now rewrite set_status_role_of.
Qed.

Lemma on_open_handle_cases (p : nat) (s : state) (r : role) (q : nat) :
  handle r (fst (on_open p s)) = Some q ->
  handle r s = Some q \/ (q = p /\ role_of s p = Some r).
Proof.
  unfold role_of. destruct (ports s !! p) as [sp|] eqn:Hp.
  - rewrite (on_open_handle p s sp r Hp).
    destruct (role_eqb (sp_role sp) r) eqn:E; [|now left].
    intros [= <-]. right. split; [reflexivity|]. simpl. f_equal.
    revert E. destruct (sp_role sp), r; simpl; congruence.
  - unfold on_open. rewrite Hp. now left.
Qed.

Lemma apply_handles_typed (e : event) (s : state) :
  handles_typed s -> handles_typed (apply e s).
Proof.
  intros Ht r q Hh. apply apply_role_of.
  destruct e as [r0 portPath|p|p message|p|p timestamp data|protocol bits code
                 |now|res|res|res|p message]; simpl in Hh.
  - apply Ht. unfold connect_call in Hh.
    destruct (negb (JS.truthy portPath)); simpl in Hh.
    + destruct (decide (r0 = r)) as [->|Hne].
      * rewrite set_handle_same in Hh. discriminate.
      * rewrite set_handle_other in Hh by exact Hne.
        now rewrite close_existing_handle in Hh.
    + change (handle r (close_existing r0 s) = Some q) in Hh.
      now rewrite close_existing_handle in Hh.
  - apply on_open_handle_cases in Hh as [Hh|[-> Hr]]; [now apply Ht | exact Hr].
  - rewrite on_open_error_handle in Hh. now apply Ht.
  - destruct (device_lost_cases p s) as [E | E]; rewrite E in Hh;
      [|rewrite set_status_handle in Hh]; now apply Ht.
  - apply Ht. unfold on_data in Hh. destruct (has_marker data); [|exact Hh].
    destruct (broadcast_same (event_frame timestamp data) s) as (H1 & H2 & _).
    destruct r; simpl in *; congruence.
  - apply Ht. unfold sendIRCommand in Hh. destruct (transmitterPort s) as [p|] eqn:E;
      [|exact Hh]. destruct (isOpen s p); [|exact Hh]. simpl in Hh.
    unfold port_write in Hh. simpl in Hh.
    destruct (ports s !! p); destruct r; simpl in *; congruence.
  - apply Ht. destruct r; exact Hh.
  - apply Ht. unfold channel_closed in Hh.
    destruct (clients s !! res); destruct r; exact Hh.
  - apply Ht. destruct r; exact Hh.
  - apply Ht. unfold on_keepAlive in Hh. destruct (has_timer res s); [|exact Hh].
    destruct (client_write_same res keepalive_frame s) as (H1 & H2 & _).
    destruct r; simpl in *; congruence.
  - rewrite write_failed_handle in Hh. now apply Ht.
Qed.

Lemma run_handles_typed (es : list event) (s s' : state) :
  handles_typed s -> run es s = Some s' -> handles_typed s'.
Proof.
  revert s. induction es as [|e es IH]; intros s Ht; simpl.
  - now intros [= <-].
  - destruct (enabled e s); [|discriminate]. apply IH. now apply apply_handles_typed.
Qed.

Lemma init_handles_typed : handles_typed init.
Proof. intros [] p; discriminate. Qed.

(** X22. In every execution from the start, a connect call for one
    role, awaited to its end, leaves the other role alone: whatever
    the path and whether the device opens or not, the other role's
    variable and every port created for the other role, with its
    state and what was written to it, are as before. *)
Theorem connect_leaves_other_role_alone
    (device : string -> option string) (es : list event) (s : state)
    (r r' : role) (portPath : option string) :
  run es init = Some s ->
  r' <> r ->
  handle r' (fst (await_connect device r portPath s)) = handle r' s /\
  forall q sp, ports s !! q = Some sp -> sp_role sp = r' ->
    ports (fst (await_connect device r portPath s)) !! q = Some sp.
Proof.
  intros Hrun Hne.
  pose proof (run_handles_typed es init s init_handles_typed Hrun) as Ht.
  assert (Hkeep : forall q sp, ports s !! q = Some sp -> sp_role sp = r' ->
            ports (close_existing r s) !! q = Some sp).
  { intros q sp Hq Hr. rewrite close_existing_lookup.
    case_bool_decide as Hd; [|exact Hq]. simpl.
    specialize (Ht r q Hd). unfold role_of in Ht. rewrite Hq in Ht. simpl in Ht.
    congruence. }
  unfold await_connect, connect_call.
  destruct (JS.truthy portPath) eqn:Hp; simpl.
  - set (s1 := close_existing r s) in *.
    set (new := {| sp_role := r; sp_path := default "" portPath; sp_baudRate := 9600;
                   sp_status := Opening; sp_written := [] |}).
    assert (Hnew : ports (set_ports (ports s1 ++ [new]) s1) !! length (ports s1) = Some new).
    { simpl. now rewrite lookup_snoc, Nat.eqb_refl. }
    assert (Hold : forall st q sp, ports s !! q = Some sp -> sp_role sp = r' ->
              ports (set_status (length (ports s1)) st
                       (set_ports (ports s1 ++ [new]) s1)) !! q = Some sp).
    { intros st q sp Hq Hr. rewrite set_status_lookup. simpl. rewrite lookup_snoc.
      pose proof (Hkeep q sp Hq Hr) as Hk.
      assert (q < length (ports s1)) by (eapply lookup_lt_Some; eauto).
      replace (Nat.eqb (length (ports s1)) q) with false
        by (symmetry; apply Nat.eqb_neq; lia).
      exact Hk. }
    destruct (device (default "" portPath)) as [message|]; split.
    + rewrite on_open_error_handle.
      change (handle r' s1 = handle r' s). apply close_existing_handle.
    + intros q sp Hq Hr. rewrite on_open_error_ports. now apply Hold.
    + rewrite (on_open_handle _ _ new r' Hnew). simpl.
      replace (role_eqb r r') with false by (destruct r, r'; simpl; congruence).
      change (handle r' s1 = handle r' s). apply close_existing_handle.
    + intros q sp Hq Hr. rewrite on_open_ports. now apply Hold.
  - split.
    + rewrite set_handle_other by congruence. apply close_existing_handle.
    + intros q sp Hq Hr. rewrite set_handle_ports. now apply Hkeep.
Qed.

Lemma connect_leaves_other_role_alone_witness :
  handle Transmitter
    (fst (await_connect no_device Receiver (Some "/dev/ttyUSB0") transmitter_connected))
  = handle Transmitter transmitter_connected.
Proof.
  pose proof (connect_leaves_other_role_alone no_device
                [Connect Transmitter (Some "/dev/ttyUSB1"); PortOpen 0]
                transmitter_connected Receiver Transmitter (Some "/dev/ttyUSB0")
                eq_refl) as H.
  destruct H as (H & _); [discriminate | exact H].
Defined.




Example lost_transmitter_execution :
  option_map (fun s => (transmitterPort s, status_of s 0, written_to s 0))
    (run [ Connect Transmitter (Some "/dev/ttyUSB1"); PortOpen 0; DeviceLost 0;
           Send "NEC" 32 "0x1"; WriteError 0 "EIO"; Send "NEC" 32 "0x2" ] init)
  = Some (Some 0, Some Closed, ["NEC,32,0x1" +:+ String "010"%char ""]).
Proof. reflexivity. Qed.

End MoreSession.
